(** * Poker_API: the game state machine of [app/playapi.py]

    A shallow embedding of the local (fallback) game engine of the poker
    session manager: [app/models.py] (Card, Player, Game), [app/init.py]
    (the process-wide [_game], [get_game], [initialize_game],
    [find_player_by_name]) and [app/playapi.py] (join, bet, fold, end of
    game, showdown, turn advancement).

    Modelling conventions.
    - The module-level variable [_game] is the whole mutable state; it is
      the type [World] ([None] is Python's [None]).  Every endpoint is a
      function [World -> outcome R * World]: mutations made before an
      [HTTPException] is raised stay in the returned world, as in Python.
    - A [Player] object is referred to by its position in [game.players];
      the list is only ever appended to, so the position is the object's
      identity and an in-place attribute write is [update_player].
    - Chip amounts ([balance], [current_bet], [pot], the request's
      [amount]) are Python numbers; they are modelled as exact integers
      (rounding and the special values of floats are outside the model).
    - [current_turn_index] is only ever 0 or a remainder modulo a length:
      it is a natural number.
    - [random.shuffle] is a parameter [shuffle] of the functions that build
      a deck.
    - [place_bet], [fold] and [community_cards] first ask a remote dealer
      and return its answer when there is one; the functions below are the
      local implementation that runs when the dealer gives none. *)

From Stdlib Require Import ZArith Lia Ascii String.
From stdpp Require Import base option list strings pretty.

Local Open Scope string_scope.

(** ** Data model ([app/models.py]) *)

Module Card.
Record t : Type := mk { rank : string; suit : string; name : string }.
End Card.

Module Player.
Record t : Type := mk {
  name : string;
  balance : Z;
  cards : list Card.t;
  current_bet : Z;
  is_active : bool;
  host_url : option string;
  is_all_in : bool;
  has_acted : bool }.

Definition set_balance (v : Z) (p : t) : t :=
  mk (name p) v (cards p) (current_bet p) (is_active p) (host_url p)
     (is_all_in p) (has_acted p).
Definition set_cards (v : list Card.t) (p : t) : t :=
  mk (name p) (balance p) v (current_bet p) (is_active p) (host_url p)
     (is_all_in p) (has_acted p).
Definition set_current_bet (v : Z) (p : t) : t :=
  mk (name p) (balance p) (cards p) v (is_active p) (host_url p)
     (is_all_in p) (has_acted p).
Definition set_is_active (v : bool) (p : t) : t :=
  mk (name p) (balance p) (cards p) (current_bet p) v (host_url p)
     (is_all_in p) (has_acted p).
Definition set_is_all_in (v : bool) (p : t) : t :=
  mk (name p) (balance p) (cards p) (current_bet p) (is_active p) (host_url p)
     v (has_acted p).
Definition set_has_acted (v : bool) (p : t) : t :=
  mk (name p) (balance p) (cards p) (current_bet p) (is_active p) (host_url p)
     (is_all_in p) v.
End Player.

Module Game.
(** [current_bet], [side_pots], [community_cards] and [current_stage] are
    attributes added after construction; [side_pots] is set by [get_game]
    but not by [initialize_game], [current_stage] the other way round, so
    both may be absent ([None]).  [side_pots] is never populated. *)
Record t : Type := mk {
  players : list Player.t;
  is_active : bool;
  current_turn_order : list string;
  current_turn_index : nat;
  pot : Z;
  deck : list Card.t;
  current_bet : Z;
  side_pots : option (list Z);
  community_cards : list Card.t;
  current_stage : option string }.

Definition set_players (v : list Player.t) (g : t) : t :=
  mk v (is_active g) (current_turn_order g) (current_turn_index g) (pot g)
     (deck g) (current_bet g) (side_pots g) (community_cards g)
     (current_stage g).
Definition set_is_active (v : bool) (g : t) : t :=
  mk (players g) v (current_turn_order g) (current_turn_index g) (pot g)
     (deck g) (current_bet g) (side_pots g) (community_cards g)
     (current_stage g).
Definition set_current_turn_order (v : list string) (g : t) : t :=
  mk (players g) (is_active g) v (current_turn_index g) (pot g)
     (deck g) (current_bet g) (side_pots g) (community_cards g)
     (current_stage g).
Definition set_current_turn_index (v : nat) (g : t) : t :=
  mk (players g) (is_active g) (current_turn_order g) v (pot g)
     (deck g) (current_bet g) (side_pots g) (community_cards g)
     (current_stage g).
Definition set_pot (v : Z) (g : t) : t :=
  mk (players g) (is_active g) (current_turn_order g) (current_turn_index g) v
     (deck g) (current_bet g) (side_pots g) (community_cards g)
     (current_stage g).
Definition set_deck (v : list Card.t) (g : t) : t :=
  mk (players g) (is_active g) (current_turn_order g) (current_turn_index g)
     (pot g) v (current_bet g) (side_pots g) (community_cards g)
     (current_stage g).
Definition set_current_bet (v : Z) (g : t) : t :=
  mk (players g) (is_active g) (current_turn_order g) (current_turn_index g)
     (pot g) (deck g) v (side_pots g) (community_cards g) (current_stage g).
Definition set_side_pots (v : option (list Z)) (g : t) : t :=
  mk (players g) (is_active g) (current_turn_order g) (current_turn_index g)
     (pot g) (deck g) (current_bet g) v (community_cards g) (current_stage g).
Definition set_community_cards (v : list Card.t) (g : t) : t :=
  mk (players g) (is_active g) (current_turn_order g) (current_turn_index g)
     (pot g) (deck g) (current_bet g) (side_pots g) v (current_stage g).
End Game.

(** The value of the global [_game]. *)
Definition World : Type := option Game.t.

(** What an endpoint does: it returns a response or raises. *)
Inductive outcome (R : Type) : Type :=
| Return (r : R)
| HTTPException (status_code : nat) (detail : string).
Arguments Return {R} r.
Arguments HTTPException {R} status_code detail.

(** An attribute write on the player object at position [i]. *)
Definition update_player (i : nat) (f : Player.t → Player.t) (g : Game.t)
  : Game.t :=
  Game.set_players (alter f i (Game.players g)) g.

(** ** [app/init.py] *)

(** The game [get_game()] returns; afterwards [_game] is [Some] of it.  A
    missing or inactive game is replaced by a new, empty one. *)
Definition new_game : Game.t :=
  Game.mk [] false [] 0 0%Z [] 0%Z (Some []) [] None.

Definition get_game (w : World) : Game.t :=
  match w with
  | Some g => if Game.is_active g then g else new_game
  | None => new_game
  end.

(** [find_player_by_name]: the first player of [get_game()] with that
    name, as a position in [players]. *)
Definition find_player_by_name (name : string) (w : World) : option nat :=
  fst <$> list_find (λ p, Player.name p = name) (Game.players (get_game w)).

(** [[p.name for p in game.players if p.is_active]] *)
Definition active_names (g : Game.t) : list string :=
  Player.name <$> filter (λ p, Player.is_active p) (Game.players g).

(** ** Turn engine ([advance_turn]) *)

(** The test of the loop's second [break] on the looked-up player. *)
Definition can_take_turn (g : Game.t) (next_player : option nat) : bool :=
  match next_player ≫= (Game.players g !!.) with
  | Some p => Player.is_active p && negb (Player.is_all_in p)
  | None => false
  end.

(** The [while iteration_count < max_iterations] loop; [remaining] is
    [max_iterations - iteration_count].  It returns the final
    [current_turn_index] and [iteration_count].  [game] is the object held
    by [_game], which is how both callers pass it; the subscript
    [current_turn_order[current_turn_index]] is in range because the index
    was just reduced modulo the length. *)
Fixpoint advance_turn_loop (game : Game.t) (original_index : nat)
    (remaining iteration_count current_turn_index : nat) : nat * nat :=
  match remaining with
  | O => (current_turn_index, iteration_count)
  | S remaining' =>
      let current_turn_index :=
        (current_turn_index + 1) `mod` length (Game.current_turn_order game) in
      let next_player :=
        Game.current_turn_order game !! current_turn_index
          ≫= (λ next_player_name,
                find_player_by_name next_player_name (Some game)) in
      let iteration_count := iteration_count + 1 in
      if decide (current_turn_index = original_index)
      then (current_turn_index, iteration_count)
      else if can_take_turn game next_player
      then (current_turn_index, iteration_count)
      else advance_turn_loop game original_index remaining' iteration_count
             current_turn_index
  end.

(** [advance_turn], with the number of loop iterations it performed. *)
Definition advance_turn_run (game : Game.t) : Game.t * nat :=
  match Game.current_turn_order game with
  | [] =>
      (Game.set_current_turn_index 0
         (Game.set_current_turn_order (active_names game) game), 0)
  | _ :: _ =>
      let active_players :=
        filter (λ p, Player.is_active p && negb (Player.is_all_in p))
               (Game.players game) in
      match active_players with
      | [] => (game, 0)
      | _ :: _ =>
          if decide (length (Game.current_turn_order game) = 0)
          then (Game.set_current_turn_index 0
                  (Game.set_current_turn_order
                     (Player.name <$> active_players) game), 0)
          else
            let original_index := Game.current_turn_index game in
            let max_iterations := length (Game.current_turn_order game) in
            let '(index, count) :=
              advance_turn_loop game original_index max_iterations 0
                original_index in
            (Game.set_current_turn_index index game, count)
      end
  end.

Definition advance_turn (game : Game.t) : Game.t :=
  fst (advance_turn_run game).

(** ** Betting engine ([place_bet], [fold]) *)

Record BetRequest : Type := { bet_name : string; bet_amount : Z }.

(** The JSON object [place_bet] returns, without its [message] text. *)
Record BetResponse : Type := {
  player_balance : Z;
  resp_pot : Z;
  resp_current_bet : Z;
  next_turn : option string }.

(** [[p.name for p in game.players if p.is_active]] into
    [current_turn_order], index 0, when the order is empty. *)
Definition init_turn_order_if_needed (game : Game.t) : Game.t :=
  match Game.current_turn_order game with
  | [] =>
      Game.set_current_turn_index 0
        (Game.set_current_turn_order (active_names game) game)
  | _ :: _ => game
  end.

(** The [for p in game.players] loop of a raise. *)
Definition reset_others_has_acted (player_name : string)
    (players : list Player.t) : list Player.t :=
  (λ p, if bool_decide (Player.name p ≠ player_name)
           && Player.is_active p && negb (Player.is_all_in p)
        then Player.set_has_acted false p else p) <$> players.

(** [current_turn_order[current_turn_index]] guarded by the order being
    non-empty and the index below its length, else [None]. *)
Definition current_turn (game : Game.t) : option string :=
  Game.current_turn_order game !! Game.current_turn_index game.

(** The local part of [place_bet] (from [game = get_game()] on).
    [player.name] in the loop of a raise is [request.name]:
    [find_player_by_name] found [player] by that equality. *)
Definition place_bet (request : BetRequest) (w : World)
  : outcome BetResponse * World :=
  let amount := bet_amount request in
  let game := get_game w in
  let game :=
    if negb (Game.is_active game) then Game.set_is_active true game
    else game in
  match find_player_by_name (bet_name request) (Some game) with
  | None => (HTTPException 404 "Player not found", Some game)
  | Some player =>
      let game :=
        update_player player
          (λ p, if negb (Player.is_active p) then Player.set_is_active true p
                else p) game in
      let game := init_turn_order_if_needed game in
      let current_bet := Game.current_bet game in
      if (amount <=? 0)%Z
      then (HTTPException 400 "Bet amount must be positive", Some game)
      else
        let game :=
          update_player player
            (λ p, if (amount >? Player.balance p)%Z
                  then Player.set_balance (Z.max 1000 (amount * 2)) p
                  else p) game in
        let game :=
          update_player player
            (λ p, Player.set_balance (Player.balance p - amount) p) game in
        let game := update_player player (Player.set_current_bet amount) game in
        let game := Game.set_pot (Game.pot game + amount) game in
        let game :=
          if (amount >? current_bet)%Z
          then Game.set_players
                 (reset_others_has_acted (bet_name request)
                    (Game.players game))
                 (Game.set_current_bet amount game)
          else game in
        let game := update_player player (Player.set_has_acted true) game in
        let game := advance_turn game in
        (Return {| player_balance :=
                     default 0%Z
                       (Player.balance <$> Game.players game !! player);
                   resp_pot := Game.pot game;
                   resp_current_bet := Game.current_bet game;
                   next_turn := current_turn game |},
         Some game)
  end.

Record FoldRequest : Type := { fold_name : string }.

(** The two JSON objects [fold] returns. *)
Inductive FoldResponse : Type :=
| FoldWinner (message : string) (winner : string) (winner_balance : Z)
| Folded (message : string) (active_players : list string)
         (next_turn : option string).

(** The [if not game.current_turn_order ... elif player.name in ...] block
    of [fold]: [list.index] and [list.remove] act on the first
    occurrence. *)
Definition fold_update_turn_order (player_name : string) (game : Game.t)
  : Game.t :=
  match Game.current_turn_order game with
  | [] =>
      Game.set_current_turn_index 0
        (Game.set_current_turn_order (active_names game) game)
  | _ :: _ =>
      match list_find (λ n, n = player_name) (Game.current_turn_order game) with
      | Some (idx, _) =>
          let game :=
            Game.set_current_turn_order
              (delete idx (Game.current_turn_order game)) game in
          match Game.current_turn_order game with
          | [] => game
          | _ :: _ =>
              if decide (idx ≤ Game.current_turn_index game)%nat
              then Game.set_current_turn_index
                     (Game.current_turn_index game
                        `mod` length (Game.current_turn_order game)) game
              else game
          end
      | None => game
      end
  end.

(** [[p for p in game.players if p.is_active]]: the player objects, each
    with its position in [players]. *)
Definition active_players_of (game : Game.t) : list (nat * Player.t) :=
  filter (λ ip, Player.is_active ip.2) (imap pair (Game.players game)).

(** The local part of [fold] (from [game = get_game()] on). *)
Definition fold (request : FoldRequest) (w : World)
  : outcome FoldResponse * World :=
  let game := get_game w in
  let game :=
    if negb (Game.is_active game) then Game.set_is_active true game
    else game in
  match find_player_by_name (fold_name request) (Some game) with
  | None => (HTTPException 404 "Player not found", Some game)
  | Some player =>
      let game := update_player player (Player.set_is_active true) game in
      let game := update_player player (Player.set_has_acted true) game in
      let game := update_player player (Player.set_is_active false) game in
      let game := fold_update_turn_order (fold_name request) game in
      let active_players := active_players_of game in
      match active_players with
      | [(w_pos, winner)] =>
          let game :=
            update_player w_pos
              (λ p, Player.set_balance (Player.balance p + Game.pot game) p)
              game in
          let winner_balance :=
            (Player.balance winner + Game.pot game)%Z in
          let game := Game.set_pot 0 game in
          (Return
             (FoldWinner
                ("Player " +:+ fold_name request +:+ " folded. Player "
                   +:+ Player.name winner +:+ " wins the pot!")
                (Player.name winner) winner_balance),
           Some game)
      | _ =>
          let game :=
            match active_players with
            | [] => game
            | _ :: _ => advance_turn game
            end in
          (Return
             (Folded ("Player " +:+ fold_name request +:+ " folded")
                (Player.name <$> active_players.*2)
                (current_turn game)),
           Some game)
      end
  end.

(** ** Showdown ([determine_winner]) and [end_game] *)

(** [CARD_VALUES.get(rank, 0)] *)
Definition CARD_VALUES : list (string * nat) :=
  [("2", 2); ("3", 3); ("4", 4); ("5", 5); ("6", 6); ("7", 7); ("8", 8);
   ("9", 9); ("10", 10); ("J", 11); ("Q", 12); ("K", 13); ("A", 14)].

Definition card_value (rank : string) : nat :=
  match list_find (λ kv, kv.1 = rank) CARD_VALUES with
  | Some (_, (_, v)) => v
  | None => 0
  end.

(** Python's [max] of the non-empty list [x :: xs]. *)
Definition py_max (x : nat) (xs : list nat) : nat := foldl Nat.max x xs.

(** An entry of [player_scores]. *)
Record PlayerScore : Type := {
  ps_name : string;
  ps_score : nat;
  ps_hand_type : string }.

(** What [determine_winner] returns when it is not [None]: the default
    winner's dict, a single entry of [player_scores], or a list of them. *)
Inductive WinnerInfo : Type :=
| DefaultWin (name : string)
| SingleWinner (w : PlayerScore)
| SplitWinners (ws : list PlayerScore).

(** One round of the [for player in active_players] loop: [None] is the
    [continue] taken when the player has fewer than 2 cards. *)
Definition score_player (player : Player.t) : option PlayerScore :=
  match Player.cards player with
  | [] | [_] => None
  | card :: cards =>
      Some {| ps_name := Player.name player;
              ps_score :=
                py_max (card_value (Card.rank card))
                       ((λ c, card_value (Card.rank c)) <$> cards);
              ps_hand_type := "high_card" |}
  end.

Definition determine_winner (game : Game.t) : option WinnerInfo :=
  let active_players :=
    filter (λ p, Player.is_active p) (Game.players game) in
  match active_players with
  | [] => None
  | [p] => Some (DefaultWin (Player.name p))
  | _ :: _ :: _ =>
      let player_scores := omap score_player active_players in
      match player_scores with
      | [] => None
      | s :: ss =>
          let max_score := py_max (ps_score s) (ps_score <$> ss) in
          let winners :=
            filter (λ p, ps_score p = max_score) player_scores in
          match winners with
          | [w] => Some (SingleWinner w)
          | _ => Some (SplitWinners winners)
          end
      end
  end.

Definition end_game (w : World) : outcome string * World :=
  let game := get_game w in
  let game := Game.set_is_active false game in
  let game := Game.set_pot 0 game in
  let game :=
    match Game.side_pots game with
    | Some _ => Game.set_side_pots (Some []) game
    | None => game
    end in
  let game :=
    Game.set_players
      ((λ player,
          Player.set_has_acted false
            (Player.set_is_all_in false
               (Player.set_current_bet 0 (Player.set_cards [] player))))
         <$> Game.players game) game in
  (Return "Game ended successfully", Some game).

(** ** Deck, start and join *)

Definition ranks : list string :=
  ["2"; "3"; "4"; "5"; "6"; "7"; "8"; "9"; "10"; "J"; "Q"; "K"; "A"].

(** [str.capitalize] on ASCII text. *)
Definition upper (c : ascii) : ascii :=
  let n := nat_of_ascii c in
  if (97 <=? n)%nat && (n <=? 122)%nat then ascii_of_nat (n - 32) else c.
Definition lower (c : ascii) : ascii :=
  let n := nat_of_ascii c in
  if (65 <=? n)%nat && (n <=? 90)%nat then ascii_of_nat (n + 32) else c.
Fixpoint lower_all (s : string) : string :=
  match s with
  | EmptyString => EmptyString
  | String c s' => String (lower c) (lower_all s')
  end.
Definition capitalize (s : string) : string :=
  match s with
  | EmptyString => EmptyString
  | String c s' => String (upper c) (lower_all s')
  end.

(** The unshuffled deck the endpoints of [playapi.py] build. *)
Definition ordered_deck : list Card.t :=
  suit ← ["hearts"; "diamonds"; "clubs"; "spades"];
  rank ← ranks;
  [Card.mk rank suit (rank +:+ " of " +:+ capitalize suit)].

(** The unshuffled deck of [initialize_deck] in [init.py]. *)
Definition ordered_deck_init : list Card.t :=
  suit ← ["Hearts"; "Diamonds"; "Clubs"; "Spades"];
  rank ← ranks;
  [Card.mk rank suit (rank +:+ " of " +:+ suit)].

Record JoinGameRequest : Type := { join_name : string; join_host_url : string }.

Record CommunityCardsResponse : Type := {
  cc_stage : string;
  cc_community_cards : list Card.t }.

Section Dealing.

(** The permutation [random.shuffle] applies. *)
Variable shuffle : list Card.t → list Card.t.

Definition initialize_deck (w : World) : World :=
  let game := get_game w in
  Some (Game.set_deck (shuffle ordered_deck_init) game).

Definition initialize_game (num_players : nat) (w : World) : World :=
  let game := Game.mk [] true [] 0 0%Z [] 0%Z None [] (Some "pre_flop") in
  let game :=
    foldl (λ game i,
             let player :=
               Player.mk ("Player " +:+ pretty (i + 1)%nat) 1000 [] 0 true
                         None false false in
             Game.set_current_turn_order
               (Game.current_turn_order game ++ [Player.name player])
               (Game.set_players (Game.players game ++ [player]) game))
          game (seq 0 num_players) in
  initialize_deck (Some game).

Definition start_game (w : World) : outcome string * World :=
  let game := get_game (initialize_game 0 w) in
  let game := Game.set_deck (shuffle ordered_deck) game in
  (Return "Game started successfully", Some game).

(** The two [deck.pop(0)] of a deal, guarded by the deck holding 2 cards. *)
Definition deal_two (new_player : Player.t) (game : Game.t)
  : Player.t * Game.t :=
  if decide (2 ≤ length (Game.deck game))%nat
  then (Player.set_cards (Player.cards new_player ++ take 2 (Game.deck game))
          new_player,
        Game.set_deck (drop 2 (Game.deck game)) game)
  else (new_player, game).

Definition join_game (request : JoinGameRequest) (w : World)
  : outcome string * World :=
  let game := get_game w in
  let game :=
    if negb (Game.is_active game)
    then
      let game := get_game (initialize_game 0 (Some game)) in
      match Game.deck game with
      | [] => Game.set_deck (shuffle ordered_deck) game
      | _ :: _ => game
      end
    else game in
  match find_player_by_name (join_name request) (Some game) with
  | Some _ =>
      (HTTPException 400
         ("Player name '" +:+ join_name request +:+ "' already exists"),
       Some game)
  | None =>
      let new_player :=
        Player.mk (join_name request) 1000 [] 0 true
                  (Some (join_host_url request)) false false in
      let game :=
        match Game.deck game with
        | [] => Game.set_deck (shuffle ordered_deck) game
        | _ :: _ => game
        end in
      let '(new_player, game) := deal_two new_player game in
      let game :=
        Game.set_players (Game.players game ++ [new_player]) game in
      let game :=
        Game.set_current_turn_order
          (Game.current_turn_order game ++ [Player.name new_player]) game in
      (Return
         ("Player " +:+ join_name request +:+ " joined the game successfully."),
       Some game)
  end.

End Dealing.

(** The local part of [community_cards]: the five guarded [deck.pop(0)]
    take as many cards as the deck has, up to five. *)
Definition community_cards (w : World)
  : outcome CommunityCardsResponse * World :=
  let game := get_game w in
  let game :=
    match Game.community_cards game, Game.deck game with
    | [], _ :: _ =>
        Game.set_deck (drop 5 (Game.deck game))
          (Game.set_community_cards (take 5 (Game.deck game)) game)
    | _, _ => game
    end in
  (Return {| cc_stage := default "pre_flop" (Game.current_stage game);
             cc_community_cards := Game.community_cards game |},
   Some game).

(** The two shapes of the JSON object [is_your_turn] returns. *)
Inductive TurnResponse : Type :=
| TurnNotice (is_your_turn : bool) (reason : string)
| TurnStatus (is_your_turn : bool) (reason : string)
             (current_player : option string) (current_bet : Z)
             (stage : string).

(** [is_your_turn]; the position [find_player_by_name] returns is in
    range, so the lookup of the player's [is_active] has a value. *)
Definition is_your_turn (player_name : string) (w : World)
  : outcome TurnResponse * World :=
  let game := get_game w in
  if negb (Game.is_active game)
  then (Return (TurnNotice false "Game was not active, now activated"),
        Some (Game.set_is_active true game))
  else
    match find_player_by_name player_name (Some game) with
    | None =>
        (HTTPException 404 ("Player " +:+ player_name +:+ " not found"),
         Some game)
    | Some player =>
        if negb (from_option Player.is_active true
                   (Game.players game !! player))
        then (Return
                (TurnNotice false "Player was not active, now activated"),
              Some (update_player player (Player.set_is_active true) game))
        else
          let game := init_turn_order_if_needed game in
          let is_turn := bool_decide (current_turn game = Some player_name) in
          (Return
             (TurnStatus is_turn
                (if is_turn then "It's your turn to act"
                 else "Waiting for other players")
                (current_turn game) (Game.current_bet game)
                (default "pre_flop" (Game.current_stage game))),
           Some game)
    end.

(** ** The other endpoints of [playapi.py] *)

(** An exception that no handler of the endpoint catches. *)
Inductive crash : Type := TypeError | IndexError.

Section ShowCards.

Variable shuffle : list Card.t → list Card.t.

(** The local part of [show_cards].  The hand is dealt only when it is
    empty, so the two [append] give the hand the cards popped. *)
Definition show_cards (player_name : string) (w : World)
  : outcome (list Card.t) * World :=
  let game := get_game w in
  match find_player_by_name player_name (Some game) with
  | None =>
      (HTTPException 404 ("Player " +:+ player_name +:+ " not found"),
       Some game)
  | Some player =>
      let game :=
        if negb (Game.is_active game) then Game.set_is_active true game
        else game in
      let game :=
        match Player.cards <$> Game.players game !! player with
        | Some [] =>
            let game :=
              if decide (length (Game.deck game) < 2)%nat
              then Game.set_deck (shuffle ordered_deck) game
              else game in
            let game :=
              update_player player
                (Player.set_cards (take 2 (Game.deck game))) game in
            Game.set_deck (drop 2 (Game.deck game)) game
        | _ => game
        end in
      (Return (from_option Player.cards [] (Game.players game !! player)),
       Some game)
  end.

End ShowCards.

Record PotResponse : Type := {
  pot_pot : Z;
  pot_current_bet : Z;
  pot_side_pots : list Z }.

Definition show_pot (w : World) : outcome PotResponse * World :=
  let game := get_game w in
  (Return {| pot_pot := Game.pot game;
             pot_current_bet := Game.current_bet game;
             pot_side_pots := default [] (Game.side_pots game) |},
   Some game).

(** An entry of [players_info]. *)
Record PlayerInfo : Type := {
  info_name : string;
  info_balance : Z;
  info_is_active : bool;
  info_current_bet : Z;
  info_is_all_in : bool;
  info_has_acted : bool }.

(** The dict [get_game_status] returns. *)
Record GameStatus : Type := {
  status_is_active : bool;
  status_pot : Z;
  status_current_turn : option string;
  status_current_stage : string;
  status_current_bet : Z;
  status_community_cards : list Card.t;
  status_players : list PlayerInfo;
  status_side_pots : list Z }.

Definition player_info (player : Player.t) : PlayerInfo :=
  {| info_name := Player.name player;
     info_balance := Player.balance player;
     info_is_active := Player.is_active player;
     info_current_bet := Player.current_bet player;
     info_is_all_in := Player.is_all_in player;
     info_has_acted := Player.has_acted player |}.

(** [get_game_status] of [init.py]: the subscript
    [current_turn_order[current_turn_index]] is not guarded by the length
    of the order. *)
Definition get_game_status (w : World) : (crash + GameStatus) * World :=
  let game := get_game w in
  let status (current_turn : option string) : GameStatus :=
    {| status_is_active := Game.is_active game;
       status_pot := Game.pot game;
       status_current_turn := current_turn;
       status_current_stage := default "pre_flop" (Game.current_stage game);
       status_current_bet := Game.current_bet game;
       status_community_cards := Game.community_cards game;
       status_players := player_info <$> Game.players game;
       status_side_pots := default [] (Game.side_pots game) |} in
  match Game.is_active game, Game.current_turn_order game with
  | true, _ :: _ =>
      match Game.current_turn_order game !! Game.current_turn_index game with
      | Some name => (inr (status (Some name)), Some game)
      | None => (inl IndexError, Some game)
      end
  | _, _ => (inr (status None), Some game)
  end.

(** The fields [GameStatusResponse] keeps of the status dict. *)
Record GameStatusResponse : Type := {
  gs_is_active : bool;
  gs_pot : Z;
  gs_current_turn : option string;
  gs_players : list PlayerInfo }.

Definition game_status_response (status : GameStatus) : GameStatusResponse :=
  {| gs_is_active := status_is_active status;
     gs_pot := status_pot status;
     gs_current_turn := status_current_turn status;
     gs_players := status_players status |}.

Definition game_status (w : World) : (crash + GameStatusResponse) * World :=
  match get_game_status w with
  | (inl exception, w) => (inl exception, w)
  | (inr status, w) =>
      if negb (status_is_active status)
      then
        let game := Game.set_is_active true (get_game w) in
        match get_game_status (Some game) with
        | (inl exception, w) => (inl exception, w)
        | (inr status, w) => (inr (game_status_response status), w)
        end
      else (inr (game_status_response status), w)
  end.

(** The three JSON objects [compare_cards] returns. *)
Inductive CompareResponse : Type :=
| CompareActivated (message : string)
| SplitPot (winners : list string) (hand_type : string)
| WinnerDetermined (winner : string) (hand_type : string).

(** The [for player in game.players] loop of [compare_cards], on the
    players and the deck. *)
Fixpoint deal_missing_cards (players : list Player.t) (deck : list Card.t)
  : list Player.t * list Card.t :=
  match players with
  | [] => ([], deck)
  | player :: players =>
      let '(player, deck) :=
        match Player.cards player with
        | [] =>
            if decide (2 ≤ length deck)%nat
            then (Player.set_cards (take 2 deck) player, drop 2 deck)
            else (Player.set_cards
                    [Card.mk "A" "hearts" "Ace of Hearts";
                     Card.mk "K" "hearts" "King of Hearts"] player, deck)
        | _ :: _ => (player, deck)
        end in
      let '(players, deck) := deal_missing_cards players deck in
      (player :: players, deck)
  end.

(** [compare_cards]: subscripting the [None] that [determine_winner] may
    return raises [TypeError], and [winner_info[0]] on an empty list
    [IndexError]. *)
Definition compare_cards (w : World) : (crash + CompareResponse) * World :=
  let game := get_game w in
  if negb (Game.is_active game)
  then (inr (CompareActivated "Game activated, please deal cards first"),
        Some (Game.set_is_active true game))
  else
    let '(players, deck) :=
      deal_missing_cards (Game.players game) (Game.deck game) in
    let game := Game.set_deck deck (Game.set_players players game) in
    match determine_winner game with
    | Some (SplitWinners winner_info) =>
        match winner_info with
        | [] => (inl IndexError, Some game)
        | first :: _ =>
            (inr (SplitPot (ps_name <$> winner_info) (ps_hand_type first)),
             Some game)
        end
    | Some (SingleWinner winner_info) =>
        (inr (WinnerDetermined (ps_name winner_info)
                (ps_hand_type winner_info)), Some game)
    | Some (DefaultWin name) =>
        (inr (WinnerDetermined name "default_win"), Some game)
    | None => (inl TypeError, Some game)
    end.

(** ** The rest of [init.py] and [models.py] *)




Definition player_fold (player : Player.t) : Player.t :=
  Player.set_is_active false player.

(** ** The history of the client ([poker_app.py]) *)

Record HistoryEntry : Type := {
  entry_time : string;
  entry_action : string;
  entry_details : string }.

(** [record_action] on [st.session_state.game_history]; [timestamp] is
    what [time.strftime] returns. *)
Definition record_action (timestamp action details : string)
    (game_history : list HistoryEntry) : list HistoryEntry :=
  let game_history :=
    (game_history
       ++ [{| entry_time := timestamp; entry_action := action;
              entry_details := details |}])%list in
  if decide (20 < length game_history)%nat then drop 1 game_history
  else game_history.

(** * Specification vocabulary *)

Local Open Scope nat_scope.

(** The data model's condition on the turn index: below the length of a
    non-empty order, 0 with an empty one. *)
Definition turn_index_ok (g : Game.t) : Prop :=
  match Game.current_turn_order g with
  | [] => Game.current_turn_index g = 0
  | _ :: _ => Game.current_turn_index g < length (Game.current_turn_order g)
  end.

(** No name of the turn order belongs to a player who may act. *)
Definition nobody_eligible (g : Game.t) : Prop :=
  ∀ name i p,
    name ∈ Game.current_turn_order g →
    find_player_by_name name (Some g) = Some i →
    Game.players g !! i = Some p →
    Player.is_active p = false ∨ Player.is_all_in p = true.

(** The game both betting endpoints work on once they have activated it. *)
Definition activated (w : World) : Game.t :=
  if negb (Game.is_active (get_game w))
  then Game.set_is_active true (get_game w) else get_game w.

(** What a successful bet of [a] by the player at position [i] does to the
    player at position [j]; [raised] tells whether [a] exceeded the table's
    bet. *)
Definition bet_effect (name : string) (a : Z) (raised : bool) (i j : nat)
    (p : Player.t) : Player.t :=
  if decide (j = i)
  then Player.mk (Player.name p)
         ((if (Player.balance p <? a)%Z then Z.max 1000 (a * 2)
           else Player.balance p) - a)
         (Player.cards p) a true (Player.host_url p) (Player.is_all_in p) true
  else if raised && bool_decide (Player.name p ≠ name)
          && Player.is_active p && negb (Player.is_all_in p)
       then Player.set_has_acted false p
       else p.

(** ** Sample tables *)

Definition seat (name : string) (balance : Z) (active acted : bool)
  : Player.t :=
  Player.mk name balance [] 0 active None false acted.

(** Alice has folded, it is Bob's turn, the table's bet is 20. *)
Definition sample_table : Game.t :=
  Game.mk [seat "Alice" 30 false true; seat "Bob" 1000 true true;
           seat "Carol" 500 true true]
          true ["Bob"; "Carol"] 0 40%Z [] 20%Z (Some []) []
          (Some "pre_flop").


(** Alice and Bob are in the hand with 90 in the pot; Carol has folded. *)
Definition heads_up_table : Game.t :=
  Game.mk [seat "Alice" 950 true true; seat "Bob" 960 true false;
           seat "Carol" 1000 false true]
          true ["Alice"; "Bob"] 0 90%Z [] 50%Z (Some []) []
          (Some "pre_flop").

(** ** The showdown in the spec's words *)

(** The score of a hand: the largest rank value among its cards. *)
Definition hand_score (p : Player.t) : nat :=
  max_list ((λ c, card_value (Card.rank c)) <$> Player.cards p).

Definition score_entry (p : Player.t) : PlayerScore :=
  {| ps_name := Player.name p;
     ps_score := hand_score p;
     ps_hand_type := "high_card" |}.

(** The players the showdown compares: active, holding at least 2 cards. *)
Definition compared (g : Game.t) : list Player.t :=
  filter (λ p, 2 ≤ length (Player.cards p))
         (filter (λ p, Player.is_active p) (Game.players g)).

(** The compared players whose score is the largest of all. *)
Definition spec_winners (g : Game.t) : list PlayerScore :=
  score_entry
    <$> filter (λ p, hand_score p = max_list (hand_score <$> compared g))
               (compared g).

Definition card (rank : string) : Card.t := Card.mk rank "spades" rank.

Definition hand (name : string) (active : bool) (cards : list Card.t)
  : Player.t :=
  Player.mk name 1000 cards 0 active None false false.

Definition showdown_table (players : list Player.t) : Game.t :=
  Game.mk players true [] 0 0%Z [] 0%Z (Some []) [] (Some "river").

(** ** Sample sessions *)

(** A [random.shuffle] that leaves the deck in order. *)
Definition no_shuffle (deck : list Card.t) : list Card.t := deck.

Definition joined (name : string) (w : World) : World :=
  (join_game no_shuffle {| join_name := name; join_host_url := "" |} w).2.

(** Alice joins, then the game is ended. *)
Definition ended_session : World := (end_game (joined "Alice" None)).2.

(** A game is started, the community cards are dealt, and 23 players
    join. *)
Definition crowded_session : World :=
  foldl (λ w k, joined ("P" +:+ pretty k) w)
        (community_cards (start_game no_shuffle None).2).2 (seq 1 23).

(** The chips the players hold. *)
Definition total_balance (g : Game.t) : Z :=
  foldr Z.add 0%Z (Player.balance <$> Game.players g).

(** Alice has folded and Bob is all-in; Carol, who could act, is not in
    the turn order. *)
Definition stuck_table : Game.t :=
  Game.mk [seat "Alice" 900 false true;
           Player.set_is_all_in true (seat "Bob" 0 true true);
           seat "Carol" 1000 true false]
          true ["Alice"; "Bob"] 1 1100%Z [] 1000%Z (Some []) []
          (Some "flop").

(** ** Reachable worlds *)

(** The worlds the endpoints can produce.  [show_cards], [compare_cards]
    and [game_status] write neither [current_turn_order] nor
    [current_turn_index]: they fall under [reach_other_fields], which
    allows any change of the other fields. *)
Inductive reachable : World → Prop :=
| reach_start : reachable None
| reach_get_game w : reachable w → reachable (Some (get_game w))
| reach_initialize_game shuffle num_players w :
    reachable w → reachable (initialize_game shuffle num_players w)
| reach_start_game shuffle w :
    reachable w → reachable (start_game shuffle w).2
| reach_join_game shuffle request w :
    reachable w → reachable (join_game shuffle request w).2
| reach_is_your_turn player_name w :
    reachable w → reachable (is_your_turn player_name w).2
| reach_place_bet request w : reachable w → reachable (place_bet request w).2
| reach_fold request w : reachable w → reachable (fold request w).2
| reach_community_cards w : reachable w → reachable (community_cards w).2
| reach_end_game w : reachable w → reachable (end_game w).2
| reach_other_fields g g' :
    reachable (Some g) →
    Game.current_turn_order g' = Game.current_turn_order g →
    Game.current_turn_index g' = Game.current_turn_index g →
    reachable (Some g').

(** ** Sessions *)

(** The worlds a sequence of calls of the endpoints produces, from the
    start of the process; each [random.shuffle] is some permutation. *)
Inductive session : World → Prop :=
| session_start : session None
| session_start_game shuffle w :
    (∀ deck, shuffle deck ≡ₚ deck) → session w →
    session (start_game shuffle w).2
| session_join_game shuffle request w :
    (∀ deck, shuffle deck ≡ₚ deck) → session w →
    session (join_game shuffle request w).2
| session_show_cards shuffle player_name w :
    (∀ deck, shuffle deck ≡ₚ deck) → session w →
    session (show_cards shuffle player_name w).2
| session_community_cards w : session w → session (community_cards w).2
| session_show_pot w : session w → session (show_pot w).2
| session_game_status w : session w → session (game_status w).2
| session_is_your_turn player_name w :
    session w → session (is_your_turn player_name w).2
| session_place_bet request w : session w → session (place_bet request w).2
| session_fold request w : session w → session (fold request w).2
| session_compare_cards w : session w → session (compare_cards w).2
| session_end_game w : session w → session (end_game w).2.

(** What holds of every player of a session. *)
Record player_ok (p : Player.t) : Prop := {
  ok_balance : (0 ≤ Player.balance p)%Z;
  ok_bet : (0 ≤ Player.current_bet p)%Z;
  ok_hand : length (Player.cards p) = 0 ∨ length (Player.cards p) = 2;
  ok_not_all_in : Player.is_all_in p = false }.

(** What holds of every game of a session. *)
Record game_ok (g : Game.t) : Prop := {
  ok_turn_index : turn_index_ok g;
  ok_names : NoDup (Player.name <$> Game.players g);
  ok_order : NoDup (Game.current_turn_order g);
  ok_order_names :
    ∀ name, name ∈ Game.current_turn_order g →
            name ∈ Player.name <$> Game.players g;
  ok_players : Forall player_ok (Game.players g);
  ok_pot : (0 ≤ Game.pot g)%Z;
  ok_current_bet : (0 ≤ Game.current_bet g)%Z;
  ok_community_cards : length (Game.community_cards g) ≤ 5 }.

(** Alice and Bob have joined a new game. *)
Definition two_player_session : World := joined "Bob" (joined "Alice" None).

(** The seat of the turn order at position [j] may act. *)
Definition eligible_at (g : Game.t) (j : nat) : Prop :=
  can_take_turn g
    (Game.current_turn_order g !! j
       ≫= λ name, find_player_by_name name (Some g)) = true.

(** * Properties *)

(** ** Frame lemmas *)

Lemma get_game_active (g : Game.t) :
  Game.is_active g = true → get_game (Some g) = g.
Proof. intros H. unfold get_game. by rewrite H. Qed.

Lemma get_game_idemp (w : World) : get_game (Some (get_game w)) = get_game w.
Proof.
  destruct w as [g|]; [|done]. simpl.
  destruct (Game.is_active g) eqn:E; simpl; by rewrite ?E.
Qed.

Lemma get_game_inactive_players (w : World) :
  Game.is_active (get_game w) = false → Game.players (get_game w) = [].
Proof.
  destruct w as [g|]; [|done]. simpl.
  destruct (Game.is_active g) eqn:E; [congruence | done].
Qed.

Lemma get_game_inactive (w : World) :
  Game.is_active (get_game w) = false → get_game w = new_game.
Proof.
  destruct w as [g|]; [|done]. simpl.
  destruct (Game.is_active g) eqn:E; [congruence | done].
Qed.

Lemma update_player_compose (i : nat) (f h : Player.t → Player.t)
    (g : Game.t) :
  update_player i f (update_player i h g) = update_player i (f ∘ h) g.
Proof.
  destruct g. unfold update_player, Game.set_players. cbn.
  by rewrite list_alter_alter_eq.
Qed.


Lemma find_player_by_name_known_active (name : string) (g : Game.t) (i : nat) :
  find_player_by_name name (Some g) = Some i → Game.is_active g = true.
Proof.
  unfold find_player_by_name. simpl.
  by destruct (Game.is_active g).
Qed.

Lemma find_player_by_name_active (name : string) (g : Game.t) :
  Game.is_active g = true →
  find_player_by_name name (Some g)
  = fst <$> list_find (λ p, Player.name p = name) (Game.players g).
Proof. intros H. unfold find_player_by_name. by rewrite get_game_active. Qed.

Lemma find_player_by_name_Some (name : string) (g : Game.t) (i : nat) :
  Game.is_active g = true →
  find_player_by_name name (Some g) = Some i →
  ∃ p, Game.players g !! i = Some p ∧ Player.name p = name.
Proof.
  intros Ha. rewrite find_player_by_name_active by done.
  destruct (list_find _ _) as [[j p]|] eqn:E; [|done].
  intros [= <-]. apply list_find_Some in E as (? & ? & _). eauto.
Qed.

(** [advance_turn] writes [current_turn_order] and [current_turn_index]
    only. *)
Lemma advance_turn_frame (g : Game.t) :
  ∃ order index,
    advance_turn g
    = Game.set_current_turn_index index (Game.set_current_turn_order order g).
Proof.
  unfold advance_turn, advance_turn_run.
  destruct g as [ps a order idx pot dk cb sp cc st]; simpl.
  destruct order as [|n order]; [by eexists _, _|].
  destruct (filter _ ps); [by exists (n :: order), idx|].
  case_decide; [by eexists _, _|].
  destruct (advance_turn_loop _ _ _ _ _) as [i c]. by exists (n :: order), i.
Qed.

Lemma advance_turn_players (g : Game.t) :
  Game.players (advance_turn g) = Game.players g.
Proof. by destruct (advance_turn_frame g) as (? & ? & ->). Qed.

Lemma advance_turn_pot (g : Game.t) : Game.pot (advance_turn g) = Game.pot g.
Proof. by destruct (advance_turn_frame g) as (? & ? & ->). Qed.

Lemma advance_turn_current_bet (g : Game.t) :
  Game.current_bet (advance_turn g) = Game.current_bet g.
Proof. by destruct (advance_turn_frame g) as (? & ? & ->). Qed.

(** ** Turn engine *)

Lemma advance_turn_loop_count (g : Game.t) (orig rem cnt idx : nat) :
  (advance_turn_loop g orig rem cnt idx).2 ≤ cnt + rem.
Proof.
  revert cnt idx. induction rem as [|rem IH]; intros cnt idx; simpl; [lia|].
  case_decide; simpl; [lia|].
  destruct (can_take_turn _ _); simpl; [lia|].
  etrans; [apply IH|lia].
Qed.

Lemma advance_turn_loop_index_lt (g : Game.t) (orig rem cnt idx : nat) :
  Game.current_turn_order g ≠ [] →
  idx < length (Game.current_turn_order g) →
  (advance_turn_loop g orig rem cnt idx).1 < length (Game.current_turn_order g).
Proof.
  intros Hne. revert cnt idx.
  assert (length (Game.current_turn_order g) ≠ 0) as Hn
    by (by destruct (Game.current_turn_order g)).
  induction rem as [|rem IH]; intros cnt idx Hidx; simpl; [done|].
  pose proof (Nat.mod_upper_bound (idx + 1) _ Hn).
  case_decide; simpl; [done|].
  destruct (can_take_turn _ _); simpl; [done|]. by apply IH.
Qed.

Lemma nobody_eligible_can_take_turn (g : Game.t) (k : nat) :
  nobody_eligible g →
  can_take_turn g
    (Game.current_turn_order g !! k
       ≫= λ name, find_player_by_name name (Some g)) = false.
Proof.
  intros Hno. unfold can_take_turn.
  destruct (Game.current_turn_order g !! k) as [name|] eqn:Hk; simpl; [|done].
  destruct (find_player_by_name name (Some g)) as [i|] eqn:Hf; simpl; [|done].
  destruct (Game.players g !! i) as [p|] eqn:Hp; [|done].
  destruct (Hno name i p) as [-> | ->]; auto using andb_false_r.
  by eapply list_elem_of_lookup_2.
Qed.

(** With nobody eligible the scan stops where the index meets the
    original one again, [k] steps ahead. *)
Lemma advance_turn_loop_wraps (g : Game.t) (orig rem cnt idx k : nat) :
  nobody_eligible g →
  1 ≤ k ≤ rem →
  (idx + k) `mod` length (Game.current_turn_order g) = orig →
  (advance_turn_loop g orig rem cnt idx).1 = orig.
Proof.
  intros Hno. revert cnt idx k.
  induction rem as [|rem IH]; intros cnt idx k Hk Hmod; simpl; [lia|].
  case_decide as Hstop; simpl; [done|].
  rewrite nobody_eligible_can_take_turn by done.
  apply (IH _ _ (k - 1)).
  - destruct (decide (k = 1)) as [->|]; [by destruct Hstop|lia].
  - rewrite Nat.Div0.add_mod_idemp_l. rewrite <- Hmod. f_equal. lia.
Qed.

(** C6: [advance_turn] runs its loop at most [len(current_turn_order)]
    times, and when no player named in the turn order can act (each is
    folded or all-in), it returns with [current_turn_index] equal to its
    value before the call.  The second part is for a turn index that meets
    the data model's condition [turn_index_ok], which every reachable
    world does ([reachable_turn_index_ok] below). *)
Theorem advance_turn_bounded_and_deadlock_safe (g : Game.t) :
  (advance_turn_run g).2 ≤ length (Game.current_turn_order g) ∧
  (turn_index_ok g → nobody_eligible g →
   Game.current_turn_index (advance_turn g) = Game.current_turn_index g).
Proof.
  unfold advance_turn, advance_turn_run, turn_index_ok. cbv zeta.
  pose proof (advance_turn_loop_count g (Game.current_turn_index g)
                (length (Game.current_turn_order g)) 0
                (Game.current_turn_index g)) as Hc.
  pose proof (advance_turn_loop_wraps g (Game.current_turn_index g)
                (length (Game.current_turn_order g)) 0
                (Game.current_turn_index g)
                (length (Game.current_turn_order g))) as Hw.
  destruct (advance_turn_loop _ _ _ _ _) as [i c]. split.
  - destruct (Game.current_turn_order g) as [|n order]; [simpl; lia|].
    destruct (filter _ _); [simpl; lia|].
    case_decide; simpl in *; lia.
  - intros Hok Hno.
    destruct (Game.current_turn_order g) as [|n order]; [done|].
    destruct (filter _ _); [done|].
    case_decide; [done|]. cbn [fst Game.current_turn_index
                                 Game.set_current_turn_index].
    apply Hw; [done|simpl; lia|].
    replace (Game.current_turn_index g + length (n :: order))
      with (Game.current_turn_index g + 1 * length (n :: order)) by lia.
    rewrite Nat.Div0.mod_add. by apply Nat.mod_small.
Qed.

Lemma advance_turn_bounded_and_deadlock_safe_witness :
  Game.current_turn_index (advance_turn stuck_table)
  = Game.current_turn_index stuck_table.
Proof.
  apply (proj2 (advance_turn_bounded_and_deadlock_safe stuck_table)).
  - vm_compute. lia.
  - intros name i p Hin Hfind Hp.
    apply elem_of_cons in Hin as [->|Hin];
      [|apply elem_of_cons in Hin as [->|Hin];
        [|by apply elem_of_nil in Hin]];
      vm_compute in Hfind; injection Hfind as <-;
      vm_compute in Hp; injection Hp as <-; auto.
Defined.

(** ** The turn index in reachable worlds *)

Lemma turn_index_ok_frame (g g' : Game.t) :
  Game.current_turn_order g' = Game.current_turn_order g →
  Game.current_turn_index g' = Game.current_turn_index g →
  turn_index_ok g → turn_index_ok g'.
Proof. unfold turn_index_ok. by intros -> ->. Qed.

Lemma turn_index_ok_rebuilt (order : list string) (g : Game.t) :
  turn_index_ok
    (Game.set_current_turn_index 0 (Game.set_current_turn_order order g)).
Proof. unfold turn_index_ok. destruct order; simpl; lia. Qed.

Lemma turn_index_ok_get_game (w : World) :
  (∀ g, w = Some g → turn_index_ok g) → turn_index_ok (get_game w).
Proof.
  intros Hw. destruct w as [g|]; [|done]. simpl.
  destruct (Game.is_active g); [by apply Hw | done].
Qed.

Lemma turn_index_ok_activated (w : World) :
  (∀ g, w = Some g → turn_index_ok g) → turn_index_ok (activated w).
Proof.
  intros Hw%turn_index_ok_get_game. unfold activated.
  by destruct (Game.is_active (get_game w)).
Qed.

Lemma turn_index_ok_init_turn_order_if_needed (g : Game.t) :
  turn_index_ok g → turn_index_ok (init_turn_order_if_needed g).
Proof.
  intros Hg. unfold init_turn_order_if_needed.
  destruct (Game.current_turn_order g) eqn:E; [|done].
  apply turn_index_ok_rebuilt.
Qed.

Lemma turn_index_ok_advance_turn (g : Game.t) :
  turn_index_ok g → turn_index_ok (advance_turn g).
Proof.
  intros Hg. unfold advance_turn, advance_turn_run. cbv zeta.
  pose proof (advance_turn_loop_index_lt g (Game.current_turn_index g)
                (length (Game.current_turn_order g)) 0
                (Game.current_turn_index g)) as Hlt.
  destruct (advance_turn_loop _ _ _ _ _) as [ix c].
  unfold turn_index_ok in Hg.
  destruct (Game.current_turn_order g) as [|n order] eqn:E;
    [apply turn_index_ok_rebuilt|].
  destruct (filter _ _); [cbn [fst]; unfold turn_index_ok; by rewrite E|].
  case_decide; [apply turn_index_ok_rebuilt|].
  unfold turn_index_ok. cbn. rewrite E. by apply Hlt.
Qed.

Lemma turn_index_ok_fold_update_turn_order (name : string) (g : Game.t) :
  turn_index_ok g → turn_index_ok (fold_update_turn_order name g).
Proof.
  intros Hg. unfold fold_update_turn_order.
  destruct (Game.current_turn_order g) as [|n order] eqn:E;
    [apply turn_index_ok_rebuilt|].
  destruct (list_find _ _) as [[idx n']|] eqn:Hfind; [|done].
  apply list_find_Some in Hfind as (Hidx%lookup_lt_Some & _).
  pose proof (length_delete (n :: order) idx
                (lookup_lt_is_Some_2 _ _ Hidx)) as Hlen.
  unfold turn_index_ok in Hg. rewrite E in Hg.
  cbn [Game.current_turn_order Game.set_current_turn_order
       Game.current_turn_index].
  destruct (delete idx (n :: order)) as [|m rest] eqn:Hd.
  - unfold turn_index_ok. cbn. simpl in *. lia.
  - case_decide; unfold turn_index_ok;
      cbn [Game.current_turn_order Game.set_current_turn_order
           Game.current_turn_index Game.set_current_turn_index].
    + by apply Nat.mod_upper_bound.
    + simpl in *. lia.
Qed.

Lemma turn_index_ok_place_bet (request : BetRequest) (w : World) (g' : Game.t) :
  (∀ g, w = Some g → turn_index_ok g) →
  (place_bet request w).2 = Some g' → turn_index_ok g'.
Proof.
  intros Hw%turn_index_ok_activated. unfold place_bet. fold (activated w).
  destruct (find_player_by_name _ _) as [i|]; [|by intros [= <-]].
  match goal with |- context [init_turn_order_if_needed ?G] =>
    assert (turn_index_ok (init_turn_order_if_needed G)) as Hinit
      by (by apply turn_index_ok_init_turn_order_if_needed) end.
  destruct (_ <=? 0)%Z; [by intros [= <-]|].
  intros [= <-]. apply turn_index_ok_advance_turn.
  by destruct (_ >? _)%Z.
Qed.

Lemma turn_index_ok_fold (request : FoldRequest) (w : World) (g' : Game.t) :
  (∀ g, w = Some g → turn_index_ok g) →
  (fold request w).2 = Some g' → turn_index_ok g'.
Proof.
  intros Hw%turn_index_ok_activated. unfold fold. fold (activated w).
  destruct (find_player_by_name _ _) as [i|]; [|by intros [= <-]].
  match goal with |- context [fold_update_turn_order ?n ?G] =>
    assert (turn_index_ok (fold_update_turn_order n G)) as Hrm
      by (by apply turn_index_ok_fold_update_turn_order) end.
  destruct (active_players_of _) as [|[j q] [|]]; intros [= <-];
    try done; by apply turn_index_ok_advance_turn.
Qed.

Lemma turn_index_ok_is_your_turn (player_name : string) (w : World)
    (g' : Game.t) :
  (∀ g, w = Some g → turn_index_ok g) →
  (is_your_turn player_name w).2 = Some g' → turn_index_ok g'.
Proof.
  intros Hw%turn_index_ok_get_game. unfold is_your_turn.
  destruct (Game.is_active (get_game w)); simpl; [|by intros [= <-]].
  destruct (find_player_by_name _ _) as [i|]; [|by intros [= <-]].
  destruct (from_option _ _ _); simpl; intros [= <-]; [|done].
  by apply turn_index_ok_init_turn_order_if_needed.
Qed.

Lemma turn_index_ok_appended (name : string) (g : Game.t) :
  turn_index_ok g →
  turn_index_ok
    (Game.set_current_turn_order (Game.current_turn_order g ++ [name]) g).
Proof.
  unfold turn_index_ok. cbn.
  destruct (Game.current_turn_order g); simpl; rewrite ?length_app; simpl; lia.
Qed.

Lemma turn_index_ok_join_game (shuffle : list Card.t → list Card.t)
    (request : JoinGameRequest) (w : World) (g' : Game.t) :
  (∀ g, w = Some g → turn_index_ok g) →
  (join_game shuffle request w).2 = Some g' → turn_index_ok g'.
Proof.
  intros Hw%turn_index_ok_get_game. unfold join_game. cbv zeta.
  match goal with |- context [find_player_by_name _ (Some ?G)] =>
    set (G0 := G); assert (turn_index_ok G0) as HG0; [subst G0|clearbody G0]
  end.
  { destruct (Game.is_active (get_game w)); simpl; [done|].
    by destruct (shuffle ordered_deck_init); simpl;
      destruct (shuffle ordered_deck). }
  destruct (find_player_by_name _ _); [by intros [= <-]|].
  match goal with |- context [deal_two ?P ?G] =>
    set (G1 := G); assert (turn_index_ok G1) as HG1;
      [subst G1; by destruct (Game.deck G0)|clearbody G1];
    assert (turn_index_ok (deal_two P G1).2) as Hd
      by (unfold deal_two; by case_decide);
    destruct (deal_two P G1) as [p1 g1]
  end.
  simpl in *. intros [= <-].
  by apply (turn_index_ok_appended _ (Game.set_players _ g1)).
Qed.

Lemma foldl_keeps_index_and_active {A : Type} (F : Game.t → A → Game.t)
    (l : list A) (g : Game.t) :
  (∀ g x, Game.current_turn_index (F g x) = Game.current_turn_index g
          ∧ Game.is_active (F g x) = Game.is_active g) →
  Game.current_turn_index (foldl F g l) = Game.current_turn_index g
  ∧ Game.is_active (foldl F g l) = Game.is_active g.
Proof.
  intros HF. revert g. induction l as [|x l IH]; intros g; simpl; [done|].
  destruct (IH (F g x)) as [-> ->]. apply HF.
Qed.

Lemma turn_index_ok_initialize_game (shuffle : list Card.t → list Card.t)
    (num_players : nat) (w : World) (g' : Game.t) :
  initialize_game shuffle num_players w = Some g' → turn_index_ok g'.
Proof.
  unfold initialize_game, initialize_deck.
  match goal with |- context [foldl ?F ?G ?l] =>
    destruct (foldl_keeps_index_and_active F l G) as [Hix Hact]; [done|];
    generalize dependent (foldl F G l); intros g0 Hix Hact
  end.
  rewrite get_game_active by done. intros [= <-].
  unfold turn_index_ok. cbn in *. rewrite Hix.
  destruct (Game.current_turn_order g0); simpl; lia.
Qed.

(** Every world the endpoints can produce satisfies the data model's
    condition on the turn index. *)
Lemma reachable_turn_index_ok (w : World) :
  reachable w → ∀ g, w = Some g → turn_index_ok g.
Proof.
  induction 1 as [|w _ IH|sh n w _ IH|sh w _ IH|sh rq w _ IH|n w _ IH|rq w _ IH|rq w _ IH
                  |w _ IH|w _ IH|g0 g1 _ IH Ho Hi]; intros g Hg.
  - done.
  - injection Hg as <-. by apply turn_index_ok_get_game.
  - by eapply turn_index_ok_initialize_game.
  - injection Hg as <-. done.
  - by eapply turn_index_ok_join_game.
  - by eapply turn_index_ok_is_your_turn.
  - by eapply turn_index_ok_place_bet.
  - by eapply turn_index_ok_fold.
  - injection Hg as <-. apply turn_index_ok_get_game in IH.
    unfold community_cards in *.
    by destruct (Game.community_cards (get_game w)), (Game.deck (get_game w)).
  - injection Hg as <-. apply turn_index_ok_get_game in IH.
    by destruct (Game.side_pots (get_game w)).
  - injection Hg as <-. eapply turn_index_ok_frame; eauto.
Qed.

(** ** Betting engine *)

Lemma activated_active (g : Game.t) :
  Game.is_active g = true → activated (Some g) = g.
Proof. intros H. unfold activated. rewrite get_game_active by done. by rewrite H. Qed.




Lemma init_turn_order_if_needed_frame (g : Game.t) :
  ∃ order index,
    init_turn_order_if_needed g
    = Game.set_current_turn_index index (Game.set_current_turn_order order g).
Proof.
  unfold init_turn_order_if_needed. destruct g as [ps a order idx ? ? ? ? ? ?].
  simpl. destruct order; by eexists _, _.
Qed.

Lemma reset_others_has_acted_lookup (name : string) (ps : list Player.t)
    (j : nat) :
  reset_others_has_acted name ps !! j
  = (λ p, if bool_decide (Player.name p ≠ name)
             && Player.is_active p && negb (Player.is_all_in p)
          then Player.set_has_acted false p else p) <$> ps !! j.
Proof. unfold reset_others_has_acted. by rewrite list_lookup_fmap. Qed.

(** The whole effect of an accepted bet. *)
Lemma place_bet_accepted (g : Game.t) (name : string) (a : Z) (i : nat) :
  Game.is_active g = true →
  find_player_by_name name (Some g) = Some i →
  (0 < a)%Z →
  ∃ g',
    place_bet {| bet_name := name; bet_amount := a |} (Some g)
    = (Return {| player_balance :=
                   default 0%Z (Player.balance <$> Game.players g' !! i);
                 resp_pot := Game.pot g';
                 resp_current_bet := Game.current_bet g';
                 next_turn := current_turn g' |}, Some g') ∧
    Game.pot g' = (Game.pot g + a)%Z ∧
    Game.current_bet g'
    = (if (a >? Game.current_bet g)%Z then a else Game.current_bet g) ∧
    ∀ j, Game.players g' !! j
         = bet_effect name a (a >? Game.current_bet g)%Z i j
             <$> Game.players g !! j.
Proof.
  intros Hact Hfind Ha.
  destruct (find_player_by_name_Some _ _ _ Hact Hfind) as (p & Hp & Hname).
  unfold place_bet. cbn [bet_name bet_amount].
  fold (activated (Some g)). rewrite activated_active by done.
  rewrite Hfind.
  destruct (Z.leb_spec a 0) as [|_]; [lia|].
  eexists. split; [reflexivity|].
  rewrite advance_turn_pot, advance_turn_current_bet, advance_turn_players.
  match goal with |- context [init_turn_order_if_needed ?G] =>
    destruct (init_turn_order_if_needed_frame G) as (o & ix & ->) end.
  cbn [Game.current_bet Game.set_current_turn_index Game.set_current_turn_order
       update_player Game.set_players Game.players Game.pot Game.set_pot
       Game.set_current_bet].
  destruct (a >? Game.current_bet g)%Z eqn:Hraise;
    cbn [Game.current_bet Game.set_current_turn_index
         Game.set_current_turn_order update_player Game.set_players
         Game.players Game.pot Game.set_pot Game.set_current_bet].
  all: split; [done|]; split; [done|]; intros j; unfold bet_effect.
  all: destruct (decide (j = i)) as [->|Hne].
  all: rewrite ?list_lookup_alter_eq, ?reset_others_has_acted_lookup,
         ?list_lookup_alter_eq, ?list_lookup_alter_ne,
         ?reset_others_has_acted_lookup, ?list_lookup_alter_ne by done.
  all: try by destruct (Game.players g !! j).
  all: rewrite Hp; destruct p as [pn pb pc pcb [] ph pai pha];
         cbn in *; subst; rewrite Z.gtb_ltb; destruct (pb <? a)%Z; cbn;
         rewrite ?bool_decide_eq_false_2 by (by intros []); done.
Qed.



Lemma find_player_by_name_Some_active (name : string) (w : World) (i : nat) :
  find_player_by_name name w = Some i → Game.is_active (get_game w) = true.
Proof.
  unfold find_player_by_name. intros H.
  destruct (Game.is_active (get_game w)) eqn:E; [done|].
  by rewrite get_game_inactive_players in H.
Qed.





(** C5: an accepted bet [a] above the table's [current_bet] makes [a] the
    table's [current_bet], leaves the bettor with [has_acted] set, and
    clears [has_acted] on every other player who is active and not all-in
    (every player of another name; the rest of such a player is kept, and
    a folded or all-in one is left as it was). *)
Theorem place_bet_raise_resets_others (g : Game.t) (name : string) (a : Z)
    (i : nat) :
  find_player_by_name name (Some g) = Some i →
  (0 < a)%Z →
  (Game.current_bet g < a)%Z →
  ∃ r g',
    place_bet {| bet_name := name; bet_amount := a |} (Some g)
    = (Return r, Some g') ∧
    Game.current_bet g' = a ∧
    resp_current_bet r = a ∧
    (∃ p', Game.players g' !! i = Some p' ∧ Player.has_acted p' = true) ∧
    (∀ j q, Game.players g !! j = Some q → Player.name q ≠ name →
       Game.players g' !! j
       = Some (if Player.is_active q && negb (Player.is_all_in q)
               then Player.set_has_acted false q else q)).
Proof.
  intros Hfind Ha Hraise.
  pose proof (find_player_by_name_known_active _ _ _ Hfind) as Hact.
  destruct (find_player_by_name_Some _ _ _ Hact Hfind) as (p & Hp & Hname).
  destruct (place_bet_accepted g name a i Hact Hfind Ha)
    as (g' & Hrun & _ & Hcb & Hplayers).
  assert ((a >? Game.current_bet g)%Z = true) as Hgt
    by (rewrite Z.gtb_ltb; by apply Z.ltb_lt).
  rewrite Hgt in Hcb, Hplayers.
  eexists _, g'. split; [exact Hrun|]. cbn. repeat split; try done.
  - rewrite Hplayers, Hp. cbn. unfold bet_effect. rewrite decide_True by done.
    by eexists.
  - intros j q Hq Hne. rewrite Hplayers, Hq. cbn. unfold bet_effect.
    rewrite decide_False by (intros ->; congruence).
    by rewrite bool_decide_eq_true_2 by done.
Qed.

Lemma place_bet_raise_resets_others_witness :
  ∃ r g',
    place_bet {| bet_name := "Bob"; bet_amount := 50 |} (Some sample_table)
    = (Return r, Some g') ∧
    Game.current_bet g' = 50%Z ∧
    resp_current_bet r = 50%Z ∧
    (∃ p', Game.players g' !! 1 = Some p' ∧ Player.has_acted p' = true) ∧
    (∀ j q, Game.players sample_table !! j = Some q →
       Player.name q ≠ "Bob" →
       Game.players g' !! j
       = Some (if Player.is_active q && negb (Player.is_all_in q)
               then Player.set_has_acted false q else q)).
Proof.
  apply (place_bet_raise_resets_others sample_table "Bob" 50 1);
    [reflexivity | lia | simpl; lia].
Defined.





Lemma fold_update_turn_order_frame (name : string) (g : Game.t) :
  ∃ order index,
    fold_update_turn_order name g
    = Game.set_current_turn_index index (Game.set_current_turn_order order g).
Proof.
  unfold fold_update_turn_order.
  destruct g as [ps a order idx ? ? ? ? ? ?]. simpl.
  destruct order as [|n order]; [by eexists _, _|].
  destruct (list_find _ _) as [[k ?]|]; [|by exists (n :: order), idx].
  simpl. destruct (delete k (n :: order)) as [|s0 l] eqn:E;
    [by exists (@nil string), idx|].
  case_decide; [by eexists _, _ | by exists (s0 :: l), idx].
Qed.







(** ** Showdown *)

Lemma py_max_max_list (x : nat) (xs : list nat) :
  py_max x xs = max_list (x :: xs).
Proof.
  unfold py_max. revert x.
  induction xs as [|y xs IH]; intros x; simpl; [lia|].
  rewrite IH. simpl. lia.
Qed.

Lemma score_player_spec (p : Player.t) :
  score_player p
  = if decide (2 ≤ length (Player.cards p)) then Some (score_entry p)
    else None.
Proof.
  unfold score_player, score_entry, hand_score.
  destruct (Player.cards p) as [|c [|c' cs]] eqn:E;
    case_decide; simpl in *; try lia; try done.
  rewrite py_max_max_list. simpl. do 2 f_equal. lia.
Qed.

Lemma omap_score_player (ps : list Player.t) :
  omap score_player ps
  = score_entry <$> filter (λ p, 2 ≤ length (Player.cards p)) ps.
Proof.
  induction ps as [|p ps IH]; [done|]. rewrite filter_cons.
  change (omap score_player (p :: ps))
    with (match score_player p with
          | Some s => s :: omap score_player ps
          | None => omap score_player ps
          end).
  rewrite score_player_spec, IH. by case_decide.
Qed.

Lemma filter_fmap {A B : Type} (f : A → B) (P : B → Prop)
    `{!∀ y, Decision (P y)} (l : list A) :
  filter P (f <$> l) = f <$> filter (λ x, P (f x)) l.
Proof.
  induction l as [|x l IH]; [done|]. rewrite fmap_cons, !filter_cons, IH.
  by case_decide.
Qed.

Lemma determine_winner_compared (g : Game.t) :
  2 ≤ length (filter (λ p, Player.is_active p) (Game.players g)) →
  determine_winner g
  = match spec_winners g with
    | [] => None
    | [w] => Some (SingleWinner w)
    | ws => Some (SplitWinners ws)
    end.
Proof.
  intros Hlen. unfold determine_winner, spec_winners, compared.
  destruct (filter _ (Game.players g)) as [|p1 [|p2 ps]] eqn:Hact;
    [simpl in Hlen; lia | simpl in Hlen; lia |].
  rewrite omap_score_player.
  set (cmp := filter (λ p, 2 ≤ length (Player.cards p)) (p1 :: p2 :: ps)).
  destruct (score_entry <$> cmp) as [|s ss] eqn:Hs.
  { apply fmap_nil_inv in Hs. by rewrite Hs. }
  rewrite py_max_max_list.
  change (max_list (ps_score s :: (ps_score <$> ss)))
    with (max_list (ps_score <$> s :: ss)).
  rewrite <- Hs, <- list_fmap_compose, filter_fmap.
  change (ps_score ∘ score_entry) with hand_score.
  assert (filter (λ p, hand_score p = max_list (hand_score <$> cmp)) cmp
          ≠ []) as Hne.
  { assert (max_list (hand_score <$> cmp) ∈ hand_score <$> cmp) as Hin.
    { apply max_list_elem_of. intros Hnil%fmap_nil_inv.
      by rewrite Hnil in Hs. }
    apply list_elem_of_fmap in Hin as (p & Hp & Hin).
    intros Hnil. by apply (filter_nil_not_elem_of _ _ p Hnil). }
  change (λ x, ps_score (score_entry x) = max_list (hand_score <$> cmp))
    with (λ p, hand_score p = max_list (hand_score <$> cmp)).
  by destruct (filter _ cmp) as [|w1 [|w2 ws]].
Qed.




(** C10: with two or more active players none of whom holds 2 cards,
    [determine_winner] returns [None]. *)
Theorem determine_winner_no_scored_hands (g : Game.t) :
  2 ≤ length (filter (λ p, Player.is_active p) (Game.players g)) →
  (∀ p, p ∈ Game.players g → Player.is_active p = true →
        length (Player.cards p) < 2) →
  determine_winner g = None.
Proof.
  intros Hlen Hcards. rewrite determine_winner_compared by done.
  unfold spec_winners.
  assert (compared g = []) as ->; [|done].
  apply elem_of_nil_inv. intros p Hin. unfold compared in Hin.
  apply list_elem_of_filter in Hin as [Hl Hin].
  apply list_elem_of_filter in Hin as [Ha Hin].
  apply Is_true_true in Ha. specialize (Hcards p Hin Ha). lia.
Qed.

Lemma determine_winner_no_scored_hands_witness :
  determine_winner
    (showdown_table [hand "Alice" true [card "A"]; hand "Bob" true [];
                     hand "Carol" false [card "K"; card "Q"]])
  = None.
Proof.
  apply determine_winner_no_scored_hands; [vm_compute; lia|].
  intros p Hin Ha.
  repeat (apply elem_of_cons in Hin as [->|Hin];
          [vm_compute in Ha |- *; first [done | lia]|]).
  by apply elem_of_nil in Hin.
Defined.

(** ** [end_game] *)

(** C9, as stated, fails: [end_game] on a game that is already ended
    (Alice had joined) leaves a game without players. *)
Lemma end_game_twice_drops_players :
  (λ g, Player.name <$> Game.players g) <$> ended_session
  = Some ["Alice"] ∧
  Game.is_active <$> ended_session = Some false ∧
  (end_game ended_session).1 = Return "Game ended successfully" ∧
  Game.players <$> (end_game ended_session).2 = Some [].
Proof. by vm_compute. Qed.

Lemma foldr_add_fmap_ext {A : Type} (f h : A → Z) (l : list A) :
  (∀ x, f x = h x) → foldr Z.add 0%Z (f <$> l) = foldr Z.add 0%Z (h <$> l).
Proof. intros E. induction l as [|x l IH]; [done|]. cbn. by rewrite E, IH. Qed.

(** C9, amended: on an active game [end_game] marks the game inactive,
    sets the pot to 0, and empties every player's cards, [current_bet],
    [is_all_in] and [has_acted]; every player stays in the list, at the
    same position, with the same name, balance and [is_active], so the
    chips of the pot go to nobody.  On a missing or inactive game
    [get_game] has replaced the game by a new one: the result has no
    players. *)
Theorem end_game_frame (w : World) :
  (∀ g, w = Some g → Game.is_active g = true →
     ∃ g', end_game w = (Return "Game ended successfully", Some g') ∧
       Game.is_active g' = false ∧
       Game.pot g' = 0%Z ∧
       length (Game.players g') = length (Game.players g) ∧
       (∀ i p, Game.players g !! i = Some p →
          Game.players g' !! i
          = Some (Player.mk (Player.name p) (Player.balance p) [] 0
                    (Player.is_active p) (Player.host_url p) false false)) ∧
       total_balance g' = total_balance g) ∧
  (Game.is_active (get_game w) = false →
   end_game w = (Return "Game ended successfully", Some new_game)).
Proof.
  split.
  - intros g -> Hact. unfold end_game. rewrite get_game_active by done.
    destruct g as [ps ? ? ? ? ? ? [sp|] ? ?];
      (eexists; split; [reflexivity|]); cbn; rewrite length_fmap.
    all: repeat split; try done.
    all: first
      [ intros i p Hp; by rewrite list_lookup_fmap, Hp
      | unfold total_balance; cbn; rewrite <- list_fmap_compose;
        by apply foldr_add_fmap_ext ].
  - intros Hin. unfold end_game. by rewrite get_game_inactive.
Qed.

Lemma end_game_frame_witness :
  ∃ g', end_game (Some sample_table)
        = (Return "Game ended successfully", Some g') ∧
    Game.is_active g' = false ∧
    Game.pot g' = 0%Z ∧
    length (Game.players g') = length (Game.players sample_table) ∧
    (∀ i p, Game.players sample_table !! i = Some p →
       Game.players g' !! i
       = Some (Player.mk (Player.name p) (Player.balance p) [] 0
                 (Player.is_active p) (Player.host_url p) false false)) ∧
    total_balance g' = total_balance sample_table.
Proof.
  apply (proj1 (end_game_frame (Some sample_table)) sample_table);
    reflexivity.
Defined.

(** ** [join_game] *)

Section JoinGame.

Variable shuffle : list Card.t → list Card.t.

(** Where the claim C2 holds: on an active game whose deck is empty or
    holds at least 2 cards, a new name gets the first 2 cards of the deck
    (a new one when it was empty). *)
Lemma join_game_deals_two (g : Game.t) (name host_url : string) :
  (∀ deck, length (shuffle deck) = length deck) →
  Game.is_active g = true →
  find_player_by_name name (Some g) = None →
  length (Game.deck g) ≠ 1 →
  ∃ message g' p,
    join_game shuffle {| join_name := name; join_host_url := host_url |}
      (Some g)
    = (Return message, Some g') ∧
    Game.players g' = (Game.players g ++ [p])%list ∧
    Player.name p = name ∧
    length (Player.cards p) = 2 ∧
    (Player.cards p ++ Game.deck g')%list
    = match Game.deck g with
      | [] => shuffle ordered_deck
      | _ :: _ => Game.deck g
      end.
Proof.
  intros Hshuffle Hact Hfind Hdeck. unfold join_game.
  rewrite get_game_active by done. rewrite Hact. cbn [negb join_name].
  rewrite Hfind. unfold deal_two.
  destruct (Game.deck g) as [|c1 [|c2 deck]] eqn:E; [|done|].
  - pose proof (Hshuffle ordered_deck) as Hlen.
    destruct (shuffle ordered_deck) as [|c1 [|c2 deck]] eqn:Es;
      [done | done |].
    cbn. by eexists _, _, _.
  - cbn. rewrite E. cbn. by eexists _, _, _.
Qed.

(** The other case: a deck of one card is neither replaced nor dealt
    from. *)
Lemma join_game_one_card_deck (g : Game.t) (name host_url : string)
    (c : Card.t) :
  Game.is_active g = true →
  find_player_by_name name (Some g) = None →
  Game.deck g = [c] →
  ∃ message g' p,
    join_game shuffle {| join_name := name; join_host_url := host_url |}
      (Some g)
    = (Return message, Some g') ∧
    Game.players g' = (Game.players g ++ [p])%list ∧
    Player.name p = name ∧
    Player.cards p = [] ∧
    Game.deck g' = [c].
Proof.
  intros Hact Hfind Hdeck. unfold join_game.
  rewrite get_game_active by done. rewrite Hact. cbn [negb join_name].
  rewrite Hfind, Hdeck. unfold deal_two. rewrite Hdeck. cbn.
  by eexists _, _, _.
Qed.

End JoinGame.

(** C2 fails on a deck of one card: after [start_game], [community_cards]
    and 23 joins the deck holds 1 card; the next [join_game] succeeds,
    creates no deck and deals nothing, so the new player holds no card. *)
Theorem join_game_one_card_deck_deals_nothing :
  length ∘ Game.deck <$> crowded_session = Some 1 ∧
  find_player_by_name "Zed" crowded_session = None ∧
  (join_game no_shuffle {| join_name := "Zed"; join_host_url := "" |}
     crowded_session).1
  = Return "Player Zed joined the game successfully." ∧
  (joined "Zed" crowded_session
     ≫= λ g, (λ p, (Player.name p, Player.cards p)) <$> last (Game.players g))
  = Some ("Zed", []) ∧
  length ∘ Game.deck <$> joined "Zed" crowded_session = Some 1.
Proof. by vm_compute. Qed.

(** ** The spec's test cases *)

Example determine_winner_ace_beats_king :
  determine_winner
    (showdown_table [hand "Alice" true [card "A"; card "2"];
                     hand "Bob" true [card "K"; card "Q"]])
  = Some (SingleWinner
            {| ps_name := "Alice"; ps_score := 14;
               ps_hand_type := "high_card" |}).
Proof. reflexivity. Qed.

Example determine_winner_two_aces_split :
  determine_winner
    (showdown_table [hand "Alice" true [card "A"; card "2"];
                     hand "Bob" true [card "A"; card "Q"]])
  = Some (SplitWinners
            [{| ps_name := "Alice"; ps_score := 14;
                ps_hand_type := "high_card" |};
             {| ps_name := "Bob"; ps_score := 14;
                ps_hand_type := "high_card" |}]).
Proof. reflexivity. Qed.

(** A lone ace is not compared: the pair of unknown ranks, scored 0,
    wins. *)
Example determine_winner_skips_short_hands :
  determine_winner
    (showdown_table [hand "Alice" true [card "A"];
                     hand "Bob" true [card "?"; card "?"]])
  = Some (SingleWinner
            {| ps_name := "Bob"; ps_score := 0;
               ps_hand_type := "high_card" |}).
Proof. reflexivity. Qed.

Example join_alice_then_bob :
  (λ g, (λ p, (Player.name p, Card.name <$> Player.cards p))
          <$> Game.players g)
    <$> joined "Bob" (joined "Alice" None)
  = Some [("Alice", ["2 of Hearts"; "3 of Hearts"]);
          ("Bob", ["4 of Hearts"; "5 of Hearts"])].
Proof. by vm_compute. Qed.

Example join_alice_twice :
  (join_game no_shuffle {| join_name := "Alice"; join_host_url := "" |}
     (joined "Alice" None)).1
  = HTTPException 400 "Player name 'Alice' already exists".
Proof. by vm_compute. Qed.

Example place_bet_alice_50 :
  let w := joined "Bob" (joined "Alice" None) in
  let '(r, w') := place_bet {| bet_name := "Alice"; bet_amount := 50 |} w in
  r = Return {| player_balance := 950; resp_pot := 50;
                resp_current_bet := 50; next_turn := Some "Bob" |} ∧
  (λ g, (λ p, (Player.name p, Player.has_acted p)) <$> Game.players g) <$> w'
  = Some [("Alice", true); ("Bob", false)].
Proof. by vm_compute. Qed.

(** An index outside the turn order, which no reachable world has, is
    not kept by [advance_turn]. *)
Example advance_turn_outside_index :
  Game.current_turn_index
    (advance_turn (Game.set_current_turn_index 5 stuck_table)) = 1.
Proof. reflexivity. Qed.

(** ** What holds in every session *)

Lemma game_ok_new_game : game_ok new_game.
Proof.
  split; simpl; try done; try lia; try apply NoDup_nil_2.
Qed.

Lemma game_ok_get_game (w : World) :
  (∀ g, w = Some g → game_ok g) → game_ok (get_game w).
Proof.
  intros Hw. destruct w as [g|]; [|apply game_ok_new_game]. simpl.
  destruct (Game.is_active g); [by apply Hw | apply game_ok_new_game].
Qed.

(** A change of the fields the invariant bounds or does not read. *)
Lemma game_ok_frame (g g' : Game.t) :
  game_ok g →
  Game.players g' = Game.players g →
  Game.current_turn_order g' = Game.current_turn_order g →
  Game.current_turn_index g' = Game.current_turn_index g →
  (0 ≤ Game.pot g')%Z → (0 ≤ Game.current_bet g')%Z →
  length (Game.community_cards g') ≤ 5 →
  game_ok g'.
Proof.
  intros [] Hp Ho Hi ? ? ?. split; try done; rewrite ?Hp, ?Ho; try done.
  unfold turn_index_ok. by rewrite Ho, Hi.
Qed.

(** A change of the players that keeps their names. *)
Lemma game_ok_set_players (g : Game.t) (players : list Player.t) :
  game_ok g →
  Player.name <$> players = Player.name <$> Game.players g →
  Forall player_ok players →
  game_ok (Game.set_players players g).
Proof. intros [] Hn Hps. split; cbn; rewrite ?Hn; done. Qed.

Lemma fmap_name_alter (f : Player.t → Player.t) (i : nat)
    (players : list Player.t) :
  (∀ p, players !! i = Some p → Player.name (f p) = Player.name p) →
  Player.name <$> alter f i players = Player.name <$> players.
Proof.
  intros Hf. apply list_eq. intros j. rewrite !list_lookup_fmap.
  destruct (decide (j = i)) as [->|]; [|by rewrite list_lookup_alter_ne].
  rewrite list_lookup_alter_eq.
  destruct (players !! i) as [p|] eqn:E; [|done]. cbn. by rewrite Hf.
Qed.

Lemma game_ok_update_player (i : nat) (f : Player.t → Player.t) (g : Game.t) :
  game_ok g →
  (∀ p, Game.players g !! i = Some p →
        Player.name (f p) = Player.name p ∧ (player_ok p → player_ok (f p))) →
  game_ok (update_player i f g).
Proof.
  intros Hg Hf. apply game_ok_set_players; [done| |].
  - apply fmap_name_alter. intros p Hp. by apply Hf.
  - apply Forall_lookup. intros j p.
    pose proof (ok_players _ Hg) as Hps.
    destruct (decide (j = i)) as [->|].
    + rewrite list_lookup_alter_eq.
      destruct (Game.players g !! i) as [q|] eqn:E; [|done].
      intros [= <-]. apply Hf; [done|]. by eapply Forall_lookup_1.
    + rewrite list_lookup_alter_ne by done. by eapply Forall_lookup_1.
Qed.

(** A change of the turn order and index. *)
Lemma game_ok_set_turn (g : Game.t) (order : list string) (index : nat) :
  game_ok g →
  NoDup order →
  (∀ name, name ∈ order → name ∈ Player.name <$> Game.players g) →
  match order with [] => index = 0 | _ :: _ => index < length order end →
  game_ok
    (Game.set_current_turn_index index
       (Game.set_current_turn_order order g)).
Proof. intros [] ? ? ?. by split. Qed.

Lemma active_names_NoDup (g : Game.t) :
  NoDup (Player.name <$> Game.players g) → NoDup (active_names g).
Proof.
  unfold active_names. intros Hnd.
  apply (sublist_NoDup _ (Player.name <$> Game.players g)); [done|].
  apply fmap_sublist, sublist_filter.
Qed.

Lemma active_names_elem_of (g : Game.t) (name : string) :
  name ∈ active_names g → name ∈ Player.name <$> Game.players g.
Proof.
  unfold active_names. intros (p & -> & Hp)%list_elem_of_fmap.
  apply list_elem_of_filter in Hp as [_ Hp]. by apply list_elem_of_fmap_2.
Qed.

Lemma game_ok_rebuilt (g : Game.t) :
  game_ok g →
  game_ok
    (Game.set_current_turn_index 0
       (Game.set_current_turn_order (active_names g) g)).
Proof.
  intros Hg. apply game_ok_set_turn; [done| | |].
  - apply active_names_NoDup, Hg.
  - apply active_names_elem_of.
  - destruct (active_names g); simpl; lia.
Qed.

Lemma game_ok_init_turn_order_if_needed (g : Game.t) :
  game_ok g → game_ok (init_turn_order_if_needed g).
Proof.
  intros Hg. unfold init_turn_order_if_needed.
  destruct (Game.current_turn_order g); [by apply game_ok_rebuilt | done].
Qed.

Lemma advance_turn_order (g : Game.t) :
  Game.current_turn_order (advance_turn g)
  = match Game.current_turn_order g with
    | [] => active_names g
    | _ :: _ => Game.current_turn_order g
    end.
Proof.
  unfold advance_turn, advance_turn_run. cbv zeta.
  destruct (advance_turn_loop _ _ _ _ _) as [ix c].
  destruct (Game.current_turn_order g) as [|n order] eqn:E; [done|].
  destruct (filter _ _); [done|]. by case_decide.
Qed.

Lemma game_ok_advance_turn (g : Game.t) :
  game_ok g → game_ok (advance_turn g).
Proof.
  intros Hg.
  pose proof (turn_index_ok_advance_turn g (ok_turn_index _ Hg)) as Hix.
  pose proof (advance_turn_order g) as Ho.
  destruct (advance_turn_frame g) as (o & ix & E). rewrite E in *.
  cbn in Ho. subst o. unfold turn_index_ok in Hix. cbn in Hix.
  destruct (Game.current_turn_order g) as [|n order] eqn:Eo.
  - apply game_ok_set_turn; [done| | |done].
    + apply active_names_NoDup, Hg.
    + apply active_names_elem_of.
  - apply game_ok_set_turn; [done| | |done].
    + rewrite <- Eo. apply Hg.
    + rewrite <- Eo. apply Hg.
Qed.

Lemma game_ok_fold_update_turn_order (name : string) (g : Game.t) :
  game_ok g → game_ok (fold_update_turn_order name g).
Proof.
  intros Hg.
  pose proof (turn_index_ok_fold_update_turn_order name g
                (ok_turn_index _ Hg)) as Hix.
  revert Hix. unfold fold_update_turn_order.
  destruct (Game.current_turn_order g) as [|n order] eqn:Eo;
    [intros _; by apply game_ok_rebuilt|].
  destruct (list_find _ _) as [[idx n']|]; [|done].
  cbn [Game.current_turn_order Game.set_current_turn_order
       Game.current_turn_index].
  assert (NoDup (delete idx (n :: order))) as Hnd.
  { apply (sublist_NoDup _ (n :: order)); [|apply sublist_delete].
    rewrite <- Eo. apply Hg. }
  assert (∀ x, x ∈ delete idx (n :: order)
               → x ∈ Player.name <$> Game.players g) as Hin.
  { intros x Hx. apply (ok_order_names _ Hg). rewrite Eo.
    eapply elem_of_sublist; [done|apply sublist_delete]. }
  destruct (delete idx (n :: order)) as [|m rest] eqn:Hd.
  - intros Hix.
    by apply (game_ok_set_turn g [] (Game.current_turn_index g)) in Hg.
  - case_decide; intros Hix.
    + by apply game_ok_set_turn.
    + by apply (game_ok_set_turn g (m :: rest) (Game.current_turn_index g))
        in Hg.
Qed.
Lemma game_ok_fmap_players (f : Player.t → Player.t) (g : Game.t) :
  game_ok g →
  (∀ p, Player.name (f p) = Player.name p ∧ (player_ok p → player_ok (f p))) →
  game_ok (Game.set_players (f <$> Game.players g) g).
Proof.
  intros Hg Hf. apply game_ok_set_players; [done| |].
  - rewrite <- list_fmap_compose. apply list_fmap_ext. intros ? p _. apply Hf.
  - apply Forall_fmap. eapply Forall_impl; [apply Hg|]. intros p. apply Hf.
Qed.

Lemma game_ok_activated (w : World) :
  (∀ g, w = Some g → game_ok g) → game_ok (activated w).
Proof.
  intros Hw%game_ok_get_game. unfold activated.
  destruct (Game.is_active (get_game w)); [done|].
  destruct Hw. by split.
Qed.

Lemma game_ok_place_bet (request : BetRequest) (w : World) (g' : Game.t) :
  (∀ g, w = Some g → game_ok g) →
  (place_bet request w).2 = Some g' → game_ok g'.
Proof.
  intros Hw%game_ok_activated. unfold place_bet. fold (activated w).
  destruct (find_player_by_name _ _) as [i|]; [|by intros [= <-]].
  match goal with |- context [init_turn_order_if_needed ?G] =>
    assert (game_ok (init_turn_order_if_needed G)) as Hinit end.
  { apply game_ok_init_turn_order_if_needed, game_ok_update_player; [done|].
    intros [? ? ? ? [] ? ? ?] _; split; try done. by intros []. }
  destruct (Z.leb_spec (bet_amount request) 0) as [|Ha];
    [by intros [= <-]|].
  intros [= <-]. apply game_ok_advance_turn.
  apply game_ok_update_player;
    [|intros p _; split; [done|by intros []]].
  match goal with |- context [Game.set_pot ?v ?G] =>
    assert (game_ok (Game.set_pot v G)) as Hpot end.
  { rewrite !update_player_compose.
    match goal with |- game_ok (Game.set_pot _ ?G) =>
      assert (game_ok G) as HG end.
    { apply game_ok_update_player; [done|].
      intros p _. split; [cbn; by destruct (_ >? _)%Z|].
      intros []. cbn.
      destruct (Z.gtb_spec (bet_amount request) (Player.balance p));
        split; cbn; try done; try lia. }
    pose proof (ok_pot _ Hinit). destruct HG.
    split; cbn in *; try done. lia. }
  destruct (_ >? _)%Z; [|done].
  match goal with
  | |- game_ok (Game.set_players (reset_others_has_acted ?n ?ps) ?G) =>
      change ps with (Game.players G)
  end.
  unfold reset_others_has_acted. apply game_ok_fmap_players.
  - destruct Hpot. split; cbn in *; try done. lia.
  - intros p. split; [by destruct (_ && _)|].
    intros []. by destruct (_ && _).
Qed.
Lemma active_players_of_elem_of (g : Game.t) (i : nat) (p : Player.t) :
  (i, p) ∈ active_players_of g → Game.players g !! i = Some p.
Proof.
  unfold active_players_of. intros [_ Hin]%list_elem_of_filter.
  by apply elem_of_lookup_imap in Hin as (j & q & [= -> ->] & Hq).
Qed.

Lemma game_ok_fold (request : FoldRequest) (w : World) (g' : Game.t) :
  (∀ g, w = Some g → game_ok g) →
  (fold request w).2 = Some g' → game_ok g'.
Proof.
  intros Hw%game_ok_activated. unfold fold. fold (activated w).
  destruct (find_player_by_name _ _) as [i|]; [|by intros [= <-]].
  rewrite !update_player_compose.
  match goal with |- context [fold_update_turn_order ?n ?G] =>
    assert (game_ok (fold_update_turn_order n G)) as Hrm;
      [|generalize dependent (fold_update_turn_order n G); intros G1 HG1]
  end.
  { apply game_ok_fold_update_turn_order, game_ok_update_player; [done|].
    intros p _. split; [done|]. by intros []. }
  destruct (active_players_of G1) as [|[j q] [|]] eqn:E; intros [= <-];
    try done; try by apply game_ok_advance_turn.
  assert (game_ok
            (update_player j
               (λ p, Player.set_balance (Player.balance p + Game.pot G1) p)
               G1)) as Hwin.
  { apply game_ok_update_player; [done|]. intros p _. split; [done|].
    pose proof (ok_pot _ HG1). intros []. split; cbn; try done. lia. }
  destruct Hwin. by split.
Qed.

Lemma game_ok_is_your_turn (player_name : string) (w : World) (g' : Game.t) :
  (∀ g, w = Some g → game_ok g) →
  (is_your_turn player_name w).2 = Some g' → game_ok g'.
Proof.
  intros Hw%game_ok_get_game. unfold is_your_turn.
  destruct (Game.is_active (get_game w)); simpl;
    [|intros [= <-]; destruct Hw; by split].
  destruct (find_player_by_name _ _) as [i|]; [|by intros [= <-]].
  destruct (from_option _ _ _); simpl; intros [= <-].
  - by apply game_ok_init_turn_order_if_needed.
  - apply game_ok_update_player; [done|]. intros p _. split; [done|].
    by intros [].
Qed.

Lemma find_player_by_name_None_fresh (name : string) (g : Game.t) :
  Game.is_active g = true →
  find_player_by_name name (Some g) = None →
  name ∉ Player.name <$> Game.players g.
Proof.
  intros Hact. rewrite find_player_by_name_active by done.
  destruct (list_find _ _) eqn:E; [done|]. intros _.
  apply list_find_None in E. intros (p & -> & Hp)%list_elem_of_fmap.
  by eapply Forall_forall in E.
Qed.

(** A player of a new name takes a seat. *)
Lemma game_ok_seated (g : Game.t) (p : Player.t) :
  game_ok g →
  Player.name p ∉ Player.name <$> Game.players g →
  player_ok p →
  game_ok
    (Game.set_current_turn_order
       (Game.current_turn_order g ++ [Player.name p])
       (Game.set_players (Game.players g ++ [p]) g)).
Proof.
  intros Hg Hfresh Hp. destruct Hg. split; cbn; try done.
  - by apply (turn_index_ok_appended _ (Game.set_players _ g)).
  - rewrite fmap_app. apply NoDup_app. split; [done|]. split.
    + intros x Hx ->%list_elem_of_singleton. done.
    + apply NoDup_singleton.
  - apply NoDup_app. split; [done|]. split.
    + intros x Hx ->%list_elem_of_singleton. auto.
    + apply NoDup_singleton.
  - intros name. rewrite fmap_app, !elem_of_app. intros [|]; auto.
  - apply Forall_app. split; [done|]. by apply Forall_singleton.
Qed.

Section SessionDealing.

Variable shuffle : list Card.t → list Card.t.
Hypothesis shuffle_permutes : ∀ deck, shuffle deck ≡ₚ deck.

Lemma shuffle_ordered_deck_length : length (shuffle ordered_deck) = 52.
Proof. by rewrite shuffle_permutes. Qed.

Lemma game_ok_start_game (w : World) (g' : Game.t) :
  (start_game shuffle w).2 = Some g' → game_ok g'.
Proof.
  intros [= <-]. split; simpl; try done; try lia; apply NoDup_nil_2.
Qed.

Lemma game_ok_join_game (request : JoinGameRequest) (w : World)
    (g' : Game.t) :
  (∀ g, w = Some g → game_ok g) →
  (join_game shuffle request w).2 = Some g' → game_ok g'.
Proof.
  intros Hw%game_ok_get_game. unfold join_game. cbv zeta.
  match goal with |- context [find_player_by_name _ (Some ?G)] =>
    set (G0 := G);
    assert (game_ok G0 ∧ Game.is_active G0 = true) as [HG0 Hact];
      [subst G0|clearbody G0]
  end.
  { destruct (Game.is_active (get_game w)) eqn:E; simpl; [done|].
    destruct (shuffle ordered_deck_init); simpl;
      (split; [|done]); split; simpl; try done; try lia;
      apply NoDup_nil_2. }
  destruct (find_player_by_name _ _) eqn:Hfind; [by intros [= <-]|].
  apply find_player_by_name_None_fresh in Hfind; [|done].
  match goal with |- context [deal_two ?P ?G] =>
    set (G1 := G);
    assert (game_ok G1 ∧ Game.players G1 = Game.players G0) as [HG1 Hps];
      [subst G1; destruct (Game.deck G0); (split; [|done]);
         [destruct HG0; by split|done] | clearbody G1];
    assert (game_ok (deal_two P G1).2 ∧
            Game.players (deal_two P G1).2 = Game.players G1 ∧
            Player.name (deal_two P G1).1 = Player.name P ∧
            player_ok (deal_two P G1).1) as (Hd & Hdp & Hn & Hok)
  end.
  { unfold deal_two. case_decide as Hlen; cbn.
    - split; [destruct HG1; by split|]. split; [done|]. split; [done|].
      split; cbn; try done; try lia. right. rewrite length_take. lia.
    - split; [done|]. split; [done|]. split; [done|].
      split; cbn; auto; lia. }
  destruct (deal_two _ G1) as [p1 g1]. simpl in *. intros [= <-].
  change (join_name request) with
    (Player.name (Player.mk (join_name request) 1000 [] 0 true
                    (Some (join_host_url request)) false false)) in Hfind.
  apply (game_ok_seated g1 p1); [done| |done].
  by rewrite Hdp, Hps, Hn.
Qed.

Lemma game_ok_show_cards (player_name : string) (w : World) (g' : Game.t) :
  (∀ g, w = Some g → game_ok g) →
  (show_cards shuffle player_name w).2 = Some g' → game_ok g'.
Proof.
  intros Hw%game_ok_get_game. unfold show_cards. cbv zeta.
  destruct (find_player_by_name _ _) as [i|]; [|by intros [= <-]].
  match goal with |- context [Player.cards <$> Game.players ?G !! _] =>
    set (G0 := G); assert (game_ok G0) as HG0;
      [subst G0; destruct (Game.is_active (get_game w));
         [done|destruct Hw; by split] | clearbody G0]
  end.
  destruct (Player.cards <$> Game.players G0 !! i) as [[|c cs]|];
    intros [= <-]; try done.
  match goal with |- context [update_player i ?f ?G] =>
    assert (game_ok G ∧ 2 ≤ length (Game.deck G)) as [HG Hlen]
  end.
  { case_decide as Hlt; [|split; [done|lia]].
    split; [destruct HG0; by split|]. cbn [Game.deck Game.set_deck].
    rewrite shuffle_ordered_deck_length. lia. }
  match goal with |- game_ok (Game.set_deck _ ?G) =>
    assert (game_ok G) as HG'; [|destruct HG'; by split] end.
  apply game_ok_update_player; [done|]. intros p _. split; [done|].
  intros []. split; try done. right.
  cbn [Player.cards Player.set_cards]. rewrite length_take. lia.
Qed.

End SessionDealing.
Lemma game_ok_community_cards (w : World) (g' : Game.t) :
  (∀ g, w = Some g → game_ok g) →
  (community_cards w).2 = Some g' → game_ok g'.
Proof.
  intros Hw%game_ok_get_game. unfold community_cards. intros [= <-].
  destruct (Game.community_cards (get_game w)), (Game.deck (get_game w));
    try done.
  destruct Hw. split; try done.
  cbn [Game.community_cards Game.set_community_cards Game.set_deck].
  rewrite length_take. lia.
Qed.

Lemma get_game_status_world (w : World) :
  (get_game_status w).2 = Some (get_game w).
Proof.
  unfold get_game_status.
  destruct (Game.is_active (get_game w)),
    (Game.current_turn_order (get_game w)); try done.
  by destruct (_ !! _).
Qed.

Lemma game_ok_game_status (w : World) (g' : Game.t) :
  (∀ g, w = Some g → game_ok g) →
  (game_status w).2 = Some g' → game_ok g'.
Proof.
  intros Hw%game_ok_get_game. unfold game_status.
  pose proof (get_game_status_world w) as Hw1.
  destruct (get_game_status w) as [[e|status] w1]; simpl in Hw1; subst w1;
    [by intros [= <-]|].
  destruct (negb _); [|by intros [= <-]].
  rewrite get_game_idemp.
  pose proof (get_game_status_world
                (Some (Game.set_is_active true (get_game w)))) as Hw2.
  destruct (get_game_status _) as [[e|status'] w2]; simpl in Hw2; subst w2;
    intros [= <-]; destruct Hw; by split.
Qed.

Lemma deal_missing_cards_ok (players : list Player.t) (deck : list Card.t) :
  Forall player_ok players →
  Player.name <$> (deal_missing_cards players deck).1 = Player.name <$> players
  ∧ Forall player_ok (deal_missing_cards players deck).1.
Proof.
  revert deck. induction players as [|p ps IH]; intros deck Hps; [done|].
  apply Forall_cons in Hps as [Hp Hps]. simpl.
  destruct (Player.cards p) eqn:Ec.
  - case_decide as Hlen.
    + destruct (IH (drop 2 deck) Hps) as [Hn Hok].
      destruct (deal_missing_cards ps (drop 2 deck)). simpl in *.
      split; [by f_equal|]. apply Forall_cons. split; [|done].
      destruct Hp. split; try done. right. cbn. rewrite length_take. lia.
    + destruct (IH deck Hps) as [Hn Hok].
      destruct (deal_missing_cards ps deck). simpl in *.
      split; [by f_equal|]. apply Forall_cons. split; [|done].
      destruct Hp. split; try done. by right.
  - destruct (IH deck Hps) as [Hn Hok].
    destruct (deal_missing_cards ps deck). simpl in *.
    split; [by f_equal|]. by apply Forall_cons.
Qed.

Lemma game_ok_compare_cards (w : World) (g' : Game.t) :
  (∀ g, w = Some g → game_ok g) →
  (compare_cards w).2 = Some g' → game_ok g'.
Proof.
  intros Hw%game_ok_get_game. unfold compare_cards.
  destruct (Game.is_active (get_game w)); simpl;
    [|intros [= <-]; destruct Hw; by split].
  destruct (deal_missing_cards_ok (Game.players (get_game w))
              (Game.deck (get_game w)) (ok_players _ Hw)) as [Hn Hok].
  destruct (deal_missing_cards _ _) as [players deck]. simpl in *.
  assert (game_ok
            (Game.set_deck deck (Game.set_players players (get_game w))))
    as Hg.
  { apply (game_ok_set_players (get_game w)) in Hok; [|done..].
    destruct Hok. by split. }
  destruct (determine_winner _) as [[?|?|[|? ?]]|]; by intros [= <-].
Qed.

Lemma game_ok_end_game (w : World) (g' : Game.t) :
  (∀ g, w = Some g → game_ok g) →
  (end_game w).2 = Some g' → game_ok g'.
Proof.
  intros Hw%game_ok_get_game. unfold end_game. cbv zeta. intros [= <-].
  match goal with |- game_ok (Game.set_players (?f <$> _) ?G) =>
    assert (game_ok G) as HG
  end.
  { destruct (Game.side_pots _); destruct Hw; by split. }
  match goal with |- game_ok (Game.set_players (?f <$> ?ps) ?G) =>
    change ps with (Game.players G)
  end.
  apply game_ok_fmap_players; [done|]. intros p. split; [done|].
  intros []. split; cbn; auto; lia.
Qed.

(** The invariant of the sessions. *)
Lemma session_game_ok (w : World) :
  session w → ∀ g, w = Some g → game_ok g.
Proof.
  induction 1; intros g Hg;
    eauto using game_ok_start_game, game_ok_join_game, game_ok_show_cards,
      game_ok_community_cards, game_ok_game_status, game_ok_is_your_turn,
      game_ok_place_bet, game_ok_fold, game_ok_compare_cards,
      game_ok_end_game.
  - done.
  - injection Hg as <-. by apply game_ok_get_game.
Qed.
Lemma two_player_session_is_session : session two_player_session.
Proof.
  do 2 (apply (session_join_game no_shuffle); [done|]). apply session_start.
Qed.

(** X1: in every session the turn index is below the length of the turn
    order, and 0 when the order is empty. *)
Theorem session_turn_index_in_range (w : World) (g : Game.t) :
  session w → w = Some g →
  match Game.current_turn_order g with
  | [] => Game.current_turn_index g = 0
  | _ :: _ => Game.current_turn_index g < length (Game.current_turn_order g)
  end.
Proof. intros Hs Hw. apply (ok_turn_index g), (session_game_ok w Hs g Hw). Qed.

Lemma session_turn_index_in_range_witness :
  let g := default new_game two_player_session in
  match Game.current_turn_order g with
  | [] => Game.current_turn_index g = 0
  | _ :: _ => Game.current_turn_index g < length (Game.current_turn_order g)
  end.
Proof.
  apply (session_turn_index_in_range two_player_session);
    [apply two_player_session_is_session | reflexivity].
Defined.

(** X2: in every session the players' names are pairwise distinct, and
    the turn order is a duplicate-free list of players' names. *)
Theorem session_names_unique (w : World) (g : Game.t) :
  session w → w = Some g →
  NoDup (Player.name <$> Game.players g) ∧
  NoDup (Game.current_turn_order g) ∧
  ∀ name, name ∈ Game.current_turn_order g →
          ∃ p, p ∈ Game.players g ∧ Player.name p = name.
Proof.
  intros Hs Hw. pose proof (session_game_ok w Hs g Hw) as Hok.
  split; [apply Hok|]. split; [apply Hok|]. intros name Hin.
  apply (ok_order_names g Hok), list_elem_of_fmap in Hin as (p & -> & Hp).
  eauto.
Qed.

Lemma session_names_unique_witness :
  let g := default new_game two_player_session in
  NoDup (Player.name <$> Game.players g) ∧
  NoDup (Game.current_turn_order g) ∧
  ∀ name, name ∈ Game.current_turn_order g →
          ∃ p, p ∈ Game.players g ∧ Player.name p = name.
Proof.
  apply (session_names_unique two_player_session);
    [apply two_player_session_is_session | reflexivity].
Defined.



(** X4: in every session each hand is empty or holds exactly 2 cards, and
    there are at most 5 community cards. *)
Theorem session_hands_and_board (w : World) (g : Game.t) :
  session w → w = Some g →
  length (Game.community_cards g) ≤ 5 ∧
  ∀ p, p ∈ Game.players g →
       Player.cards p = [] ∨ length (Player.cards p) = 2.
Proof.
  intros Hs Hw. pose proof (session_game_ok w Hs g Hw) as Hok.
  split; [apply Hok|]. intros p Hp.
  destruct (proj1 (Forall_forall _ _) (ok_players g Hok) p Hp)
    as [_ _ [H|H] _];
    [left; by apply nil_length_inv | by right].
Qed.

Lemma session_hands_and_board_witness :
  let g := default new_game two_player_session in
  length (Game.community_cards g) ≤ 5 ∧
  ∀ p, p ∈ Game.players g →
       Player.cards p = [] ∨ length (Player.cards p) = 2.
Proof.
  apply (session_hands_and_board two_player_session);
    [apply two_player_session_is_session | reflexivity].
Defined.

(** X5: no endpoint ever marks a player all-in: in every session
    [is_all_in] is false for every player, so a player may take a turn
    exactly when active. *)
Theorem session_nobody_all_in (w : World) (g : Game.t) :
  session w → w = Some g →
  ∀ i p, Game.players g !! i = Some p →
         Player.is_all_in p = false ∧
         can_take_turn g (Some i) = Player.is_active p.
Proof.
  intros Hs Hw i p Hp. pose proof (session_game_ok w Hs g Hw) as Hok.
  destruct (Forall_lookup_1 _ _ _ _ (ok_players g Hok) Hp) as [_ _ _ Hall].
  split; [done|]. unfold can_take_turn. cbn. rewrite Hp, Hall.
  apply andb_true_r.
Qed.

Lemma session_nobody_all_in_witness :
  let g := default new_game two_player_session in
  let p := default (seat "Alice" 0 true false) (Game.players g !! 0) in
  Player.is_all_in p = false ∧
  can_take_turn g (Some 0) = Player.is_active p.
Proof.
  apply (session_nobody_all_in two_player_session _
           two_player_session_is_session eq_refl 0).
  reflexivity.
Defined.

(** X6: in every session [game_status] returns (the unguarded subscript
    of [get_game_status] is in range), reports an active game and leaves
    an active game. *)
Theorem session_game_status_returns (w : World) :
  session w →
  ∃ response g',
    game_status w = (inr response, Some g') ∧
    gs_is_active response = true ∧
    Game.is_active g' = true.
Proof.
  intros Hs.
  assert (∀ w', game_ok (get_game w') →
            ∃ status,
              get_game_status w' = (inr status, Some (get_game w')) ∧
              status_is_active status = Game.is_active (get_game w'))
    as Hstatus.
  { intros w' Hg. unfold get_game_status.
    destruct (Game.is_active (get_game w')) eqn:Ea; [|by eexists].
    pose proof (ok_turn_index _ Hg) as Hix. unfold turn_index_ok in Hix.
    destruct (Game.current_turn_order (get_game w')) as [|n o] eqn:Eo;
      [by eexists|].
    rewrite <- Eo in *.
    destruct (lookup_lt_is_Some_2 _ _ Hix) as [name ->]. by eexists. }
  assert (game_ok (get_game w)) as Hg
    by (apply game_ok_get_game, session_game_ok, Hs).
  unfold game_status.
  destruct (Hstatus _ Hg) as (status & -> & Hact).
  destruct (status_is_active status) eqn:Es; cbn [negb].
  - eexists _, _. split; [done|]. split; [done|]. by rewrite <- Hact.
  - rewrite get_game_idemp.
    assert (get_game (Some (Game.set_is_active true (get_game w)))
            = Game.set_is_active true (get_game w)) as Hgg by done.
    destruct (Hstatus (Some (Game.set_is_active true (get_game w))))
      as (status2 & -> & Hact2).
    { rewrite Hgg. destruct Hg. by split. }
    rewrite Hgg in *. by eexists _, _.
Qed.

Lemma session_game_status_returns_witness :
  ∃ response g',
    game_status two_player_session = (inr response, Some g') ∧
    gs_is_active response = true ∧
    Game.is_active g' = true.
Proof.
  apply session_game_status_returns, two_player_session_is_session.
Defined.
(** ** More on the turn engine *)

Lemma advance_turn_loop_first_eligible (g : Game.t)
    (orig rem cnt idx k : nat) :
  1 ≤ k ≤ rem →
  eligible_at g ((idx + k) `mod` length (Game.current_turn_order g)) →
  (∀ k', 1 ≤ k' < k →
         ¬ eligible_at g
             ((idx + k') `mod` length (Game.current_turn_order g))
         ∧ (idx + k') `mod` length (Game.current_turn_order g) ≠ orig) →
  (advance_turn_loop g orig rem cnt idx).1
  = (idx + k) `mod` length (Game.current_turn_order g).
Proof.
  revert cnt idx k.
  induction rem as [|rem IH]; intros cnt idx k Hk Hel Hbefore; [lia|].
  cbn [advance_turn_loop]. cbv zeta.
  destruct (decide (k = 1)) as [->|Hk1].
  - case_decide; [done|]. unfold eligible_at in Hel. by rewrite Hel.
  - destruct (Hbefore 1) as [Hno Hne]; [lia|].
    rewrite decide_False by done.
    unfold eligible_at in Hno. apply not_true_is_false in Hno.
    rewrite Hno.
    assert (∀ j, ((idx + 1) `mod` length (Game.current_turn_order g) + j)
                   `mod` length (Game.current_turn_order g)
                 = (idx + S j) `mod` length (Game.current_turn_order g))
      as Hshift.
    { intros j. rewrite Nat.Div0.add_mod_idemp_l. f_equal. lia. }
    rewrite (IH _ _ (k - 1)).
    + rewrite Hshift. f_equal. lia.
    + lia.
    + rewrite Hshift. by replace (S (k - 1)) with k by lia.
    + intros k' Hk'. rewrite Hshift. apply Hbefore. lia.
Qed.

Lemma mod_add_not_fixed (i k n : nat) :
  i < n → 1 ≤ k < n → (i + k) `mod` n ≠ i.
Proof.
  intros Hi Hk. destruct (decide (i + k < n)) as [Hlt|Hge].
  - rewrite Nat.mod_small by done. lia.
  - rewrite <- (Nat.mod_unique (i + k) n 1 (i + k - n)); lia.
Qed.

Lemma eligible_at_active_players (g : Game.t) (j : nat) :
  eligible_at g j →
  filter (λ p, Player.is_active p && negb (Player.is_all_in p))
         (Game.players g) ≠ [].
Proof.
  unfold eligible_at, can_take_turn.
  destruct (_ ≫= _) as [p|] eqn:Hp; [|done].
  apply bind_Some in Hp as (i & _ & Hp).
  intros Hel Hnil.
  eapply (filter_nil_not_elem_of _ (Game.players g) p); [done| |].
  - by apply Is_true_true.
  - by eapply list_elem_of_lookup_2.
Qed.

(** X7: [advance_turn] moves the turn to the first seat after the current
    one, cyclically, whose player may act (active and not all-in); [k]
    counts the seats it moves by, [k = len(current_turn_order)] being the
    current seat itself when no other seat is eligible. *)
Theorem advance_turn_next_eligible (g : Game.t) (k : nat) :
  Game.current_turn_index g < length (Game.current_turn_order g) →
  1 ≤ k ≤ length (Game.current_turn_order g) →
  eligible_at g
    ((Game.current_turn_index g + k)
       `mod` length (Game.current_turn_order g)) →
  (∀ k', 1 ≤ k' < k →
         ¬ eligible_at g
             ((Game.current_turn_index g + k')
                `mod` length (Game.current_turn_order g))) →
  Game.current_turn_index (advance_turn g)
  = (Game.current_turn_index g + k)
      `mod` length (Game.current_turn_order g) ∧
  Game.current_turn_order (advance_turn g) = Game.current_turn_order g ∧
  eligible_at (advance_turn g) (Game.current_turn_index (advance_turn g)).
Proof.
  intros Hix Hk Hel Hbefore.
  pose proof (eligible_at_active_players _ _ Hel) as Hact.
  pose proof (advance_turn_loop_first_eligible g
                (Game.current_turn_index g)
                (length (Game.current_turn_order g)) 0
                (Game.current_turn_index g) k Hk Hel) as Hloop.
  assert (advance_turn g
          = Game.set_current_turn_index
              ((Game.current_turn_index g + k)
                 `mod` length (Game.current_turn_order g)) g) as ->.
  { unfold advance_turn, advance_turn_run. cbv zeta.
    destruct (advance_turn_loop _ _ _ _ _) as [ix c].
    destruct (Game.current_turn_order g) as [|n o] eqn:Eo;
      [simpl in Hix; lia|].
    destruct (filter _ _); [done|].
    case_decide; [simpl in *; lia|]. cbn [fst] in *. rewrite Hloop; [done|].
    intros k' Hk'. split; [apply Hbefore; lia|].
    apply mod_add_not_fixed; [done|]. simpl in *. lia. }
  split; [done|]. split; [done|].
  unfold eligible_at, find_player_by_name, get_game in *. cbn in *.
  by destruct (Game.is_active g).
Qed.

Lemma advance_turn_next_eligible_witness :
  Game.current_turn_index (advance_turn sample_table)
  = (Game.current_turn_index sample_table + 1)
      `mod` length (Game.current_turn_order sample_table) ∧
  Game.current_turn_order (advance_turn sample_table)
  = Game.current_turn_order sample_table ∧
  eligible_at (advance_turn sample_table)
    (Game.current_turn_index (advance_turn sample_table)).
Proof.
  apply (advance_turn_next_eligible sample_table 1);
    [vm_compute; lia | vm_compute; lia | reflexivity | intros k'; lia].
Defined.

(** ** Chips *)








(** ** The folder leaves the turn order *)

Lemma NoDup_delete_not_elem_of {A} (l : list A) (idx : nat) (x : A) :
  NoDup l → l !! idx = Some x → x ∉ delete idx l.
Proof.
  intros Hnd Hx (j & Hj)%list_elem_of_lookup_1.
  destruct (decide (j < idx)) as [Hlt|Hge].
  - rewrite list_lookup_delete_lt in Hj by done.
    pose proof (NoDup_lookup _ _ _ _ Hnd Hj Hx). lia.
  - rewrite list_lookup_delete_ge in Hj by lia.
    pose proof (NoDup_lookup _ _ _ _ Hnd Hj Hx). lia.
Qed.

Lemma folded_not_in_active_names (g : Game.t) (i : nat) (p : Player.t)
    (f : Player.t → Player.t) (players : list Player.t) :
  NoDup (Player.name <$> Game.players g) →
  Game.players g !! i = Some p →
  (∀ q, Player.name (f q) = Player.name q) →
  Player.is_active (f p) = false →
  players = alter f i (Game.players g) →
  Player.name p
  ∉ Player.name <$> filter (λ q, Player.is_active q) players.
Proof.
  intros Hnd Hp Hname Hfold -> (q & Hq & Hin)%list_elem_of_fmap.
  apply list_elem_of_filter in Hin as [Hact Hin].
  apply list_elem_of_lookup_1 in Hin as (j & Hj).
  destruct (decide (j = i)) as [->|Hne].
  - rewrite list_lookup_alter_eq, Hp in Hj. simplify_eq/=.
    rewrite Hfold in Hact. done.
  - rewrite list_lookup_alter_ne in Hj by done.
    apply Hne. eapply NoDup_lookup; [exact Hnd| |].
    + by rewrite list_lookup_fmap, Hj.
    + rewrite list_lookup_fmap, Hp. cbn. by rewrite Hq.
Qed.

Lemma fold_update_turn_order_not_elem_of (name : string) (g : Game.t) :
  NoDup (Game.current_turn_order g) →
  name ∉ active_names g →
  name ∉ Game.current_turn_order (fold_update_turn_order name g).
Proof.
  intros Hnd Hout. unfold fold_update_turn_order.
  destruct (Game.current_turn_order g) as [|n o] eqn:Eo; [done|].
  destruct (list_find _ _) as [[idx n']|] eqn:Efind.
  - apply list_find_Some in Efind as (Hidx & -> & _).
    cbn [Game.current_turn_order Game.set_current_turn_order].
    assert (name ∉ delete idx (n :: o)) as Hdel
      by by apply NoDup_delete_not_elem_of.
    destruct (delete idx (n :: o)) eqn:Ed; [done|].
    by case_decide.
  - apply list_find_None in Efind.
    intros Hin. cbn in Hin. rewrite ?Eo in Hin.
    by eapply Forall_forall in Efind.
Qed.

(** X10: with pairwise distinct player names and a duplicate-free turn
    order (both hold in every session), a known player who folds is out of
    the hand: inactive, absent from the turn order [fold] leaves, and so
    not the player whose turn it is. *)
Theorem fold_takes_folder_out_of_turn_order (g : Game.t) (name : string)
    (i : nat) :
  NoDup (Player.name <$> Game.players g) →
  NoDup (Game.current_turn_order g) →
  find_player_by_name name (Some g) = Some i →
  ∃ r g',
    fold {| fold_name := name |} (Some g) = (Return r, Some g') ∧
    (∃ q, Game.players g' !! i = Some q ∧ Player.is_active q = false) ∧
    (name ∉ Game.current_turn_order g') ∧
    current_turn g' ≠ Some name.
Proof.
  intros Hnames Horder Hfind.
  pose proof (find_player_by_name_known_active _ _ _ Hfind) as Hact.
  destruct (find_player_by_name_Some _ _ _ Hact Hfind) as (p & Hp & <-).
  unfold fold. fold (activated (Some g)). rewrite activated_active by done.
  cbn [fold_name]. rewrite Hfind, !update_player_compose.
  match goal with |- context [fold_update_turn_order _ ?G0] =>
    set (G := G0)
  end.
  assert (name_out : Player.name p ∉ active_names G).
  { by apply (folded_not_in_active_names g i p
                (Player.set_is_active false ∘ Player.set_has_acted true
                   ∘ Player.set_is_active true)). }
  assert (∃ q, Game.players G !! i = Some q ∧ Player.is_active q = false)
    as (q0 & Hq0 & Hfolded).
  { unfold G, update_player. cbn. rewrite list_lookup_alter_eq, Hp.
    by eexists. }
  pose proof (fold_update_turn_order_not_elem_of (Player.name p) G Horder
                name_out) as Hout.
  destruct (fold_update_turn_order_frame (Player.name p) G)
    as (o & ix & HG1).
  rewrite HG1 in *. cbn [Game.current_turn_order Game.set_current_turn_order
                         Game.set_current_turn_index] in Hout.
  set (G1 := Game.set_current_turn_index ix
               (Game.set_current_turn_order o G)) in *.
  assert (∀ g', Game.current_turn_order g' = o ∨
                (o = [] ∧ Game.current_turn_order g' = active_names G) →
                (Player.name p ∉ Game.current_turn_order g') ∧
                current_turn g' ≠ Some (Player.name p)) as Hfinal.
  { intros g' Ho.
    assert (Player.name p ∉ Game.current_turn_order g') as Hn
      by (by destruct Ho as [->|[_ ->]]).
    split; [done|]. unfold current_turn. intros Hcur.
    by apply list_elem_of_lookup_2 in Hcur. }
  destruct (active_players_of G1) as [|[j q] [|]] eqn:E.
  - eexists _, _. split; [done|]. split; [by exists q0|].
    apply Hfinal. by left.
  - eexists _, _. split; [done|]. split.
    + cbn in Hq0 |- *. destruct (decide (j = i)) as [->|Hne].
      * rewrite list_lookup_alter_eq, Hq0. by eexists.
      * rewrite list_lookup_alter_ne by done. by exists q0.
    + apply Hfinal. by left.
  - destruct (advance_turn_frame G1) as (o' & ix' & HG2).
    pose proof (advance_turn_order G1) as Hord.
    eexists _, _. split; [done|]. rewrite HG2 in *. split; [by exists q0|].
    apply Hfinal. cbn in Hord |- *. destruct o; [right|left]; done.
Qed.

Lemma fold_takes_folder_out_of_turn_order_witness :
  ∃ r g',
    fold {| fold_name := "Alice" |} (Some heads_up_table)
    = (Return r, Some g') ∧
    (∃ q, Game.players g' !! 0 = Some q ∧ Player.is_active q = false) ∧
    ("Alice" ∉ Game.current_turn_order g') ∧
    current_turn g' ≠ Some "Alice".
Proof.
  apply (fold_takes_folder_out_of_turn_order heads_up_table "Alice" 0);
    [by apply (bool_decide_unpack _)..| reflexivity].
Defined.
(** ** [start_game] and [join_game], continued *)

Lemma initialize_game_0 (shuffle : list Card.t → list Card.t) (w : World) :
  initialize_game shuffle 0 w
  = Some (Game.mk [] true [] 0 0%Z (shuffle ordered_deck_init) 0%Z None []
            (Some "pre_flop")).
Proof. reflexivity. Qed.

Lemma ordered_deck_names_NoDup : NoDup (Card.name <$> ordered_deck).
Proof. by apply (bool_decide_unpack _). Qed.

(** X11: [start_game] keeps nothing of the game before it: whatever the
    world was, the new game is active, has no player, no turn order, no
    chips and no board, and its deck is a shuffle of the 52 cards of the
    pack, whose names are pairwise distinct. *)
Theorem start_game_fresh_table (shuffle : list Card.t → list Card.t)
    (w : World) :
  (∀ deck, shuffle deck ≡ₚ deck) →
  ∃ g,
    start_game shuffle w = (Return "Game started successfully", Some g) ∧
    start_game shuffle w = start_game shuffle None ∧
    Game.is_active g = true ∧
    Game.players g = [] ∧
    Game.current_turn_order g = [] ∧
    Game.current_turn_index g = 0 ∧
    Game.pot g = 0%Z ∧
    Game.current_bet g = 0%Z ∧
    Game.community_cards g = [] ∧
    Game.deck g ≡ₚ ordered_deck ∧
    length (Game.deck g) = 52 ∧
    NoDup (Card.name <$> Game.deck g).
Proof.
  intros Hshuffle. unfold start_game. rewrite !initialize_game_0.
  eexists. split; [reflexivity|].
  cbn [get_game Game.is_active Game.players Game.current_turn_order
       Game.current_turn_index Game.pot Game.current_bet
       Game.community_cards Game.deck Game.set_deck].
  repeat (split; [done|]). split.
  - by rewrite Hshuffle.
  - rewrite Hshuffle. apply ordered_deck_names_NoDup.
Qed.

Lemma start_game_fresh_table_witness :
  ∃ g,
    start_game no_shuffle two_player_session
    = (Return "Game started successfully", Some g) ∧
    start_game no_shuffle two_player_session = start_game no_shuffle None ∧
    Game.is_active g = true ∧
    Game.players g = [] ∧
    Game.current_turn_order g = [] ∧
    Game.current_turn_index g = 0 ∧
    Game.pot g = 0%Z ∧
    Game.current_bet g = 0%Z ∧
    Game.community_cards g = [] ∧
    Game.deck g ≡ₚ ordered_deck ∧
    length (Game.deck g) = 52 ∧
    NoDup (Card.name <$> Game.deck g).
Proof. by apply (start_game_fresh_table no_shuffle). Defined.

Lemma list_find_app_new {A} (P : A → Prop) `{!∀ x, Decision (P x)}
    (l : list A) (x : A) :
  list_find P l = None → P x →
  list_find P (l ++ [x]) = Some (length l, x).
Proof.
  intros Hnone Hx. apply list_find_Some. split; [|split; [done|]].
  - by rewrite lookup_app_r, Nat.sub_diag.
  - intros j y Hj Hlt. rewrite lookup_app_l in Hj by done.
    apply list_find_None in Hnone.
    eapply Forall_forall in Hnone; [done|]. by eapply list_elem_of_lookup_2.
Qed.

(** X12: a name is seated once: when [join_game] has accepted a name, a
    second [join_game] with that name (any host URL, any shuffle) is
    rejected with 400, and the world stays as the first join left it. *)
Theorem join_game_same_name_rejected
    (shuffle1 shuffle2 : list Card.t → list Card.t)
    (request1 request2 : JoinGameRequest) (w w' : World) (message : string) :
  join_name request2 = join_name request1 →
  join_game shuffle1 request1 w = (Return message, w') →
  join_game shuffle2 request2 w'
  = (HTTPException 400
       ("Player name '" +:+ join_name request2 +:+ "' already exists"),
     w').
Proof.
  intros Hname. unfold join_game at 1.
  set (G := if negb (Game.is_active (get_game w)) then _ else get_game w).
  assert (Game.is_active G = true) as Hact.
  { unfold G. destruct (Game.is_active (get_game w)) eqn:E; [done|].
    cbn [negb]. rewrite initialize_game_0.
    cbn [get_game Game.is_active Game.deck].
    by destruct (shuffle1 ordered_deck_init). }
  clearbody G.
  destruct (find_player_by_name _ (Some G)) as [?|] eqn:Hfind; [done|].
  rewrite find_player_by_name_active in Hfind by done.
  apply fmap_None in Hfind.
  unfold deal_two. intros Hrun.
  assert (∃ cards deck,
            w' = Some (Game.set_current_turn_order
                         (Game.current_turn_order G ++ [join_name request1])
                         (Game.set_players
                            (Game.players G
                               ++ [Player.mk (join_name request1) 1000 cards 0
                                     true (Some (join_host_url request1))
                                     false false])
                            (Game.set_deck deck G))))
    as (cards & deck & ->).
  { destruct (Game.deck G) eqn:Ed; case_decide; cbn in Hrun;
      simplify_eq/=; destruct G; cbn in *; subst; by eexists _, _. }
  unfold join_game. rewrite get_game_active by done. cbn [negb].
  cbn [Game.is_active Game.set_current_turn_order Game.set_players
       Game.set_deck negb].
  rewrite Hact, Hname. cbn [negb].
  rewrite find_player_by_name_active by done. cbn.
  by rewrite (list_find_app_new _ _ _ Hfind).
Qed.

Lemma join_game_same_name_rejected_witness :
  join_game no_shuffle {| join_name := "Alice"; join_host_url := "b" |}
    (joined "Alice" None)
  = (HTTPException 400 "Player name 'Alice' already exists",
     joined "Alice" None).
Proof.
  exact (join_game_same_name_rejected no_shuffle no_shuffle
           {| join_name := "Alice"; join_host_url := "" |}
           {| join_name := "Alice"; join_host_url := "b" |}
           None (joined "Alice" None)
           "Player Alice joined the game successfully." eq_refl eq_refl).
Defined.

(** X13: joining when no game is running creates one: the table is the
    new player alone, with 1000 chips and first in the turn order.  The
    deck is the one [initialize_game] of [init.py] has shuffled (suits
    capitalised), not the pack of [playapi.py]: it is not empty, so
    [join_game] builds none, and the hand is its first two cards. *)
Theorem join_game_without_game (shuffle : list Card.t → list Card.t)
    (w : World) (name host_url : string) :
  (∀ deck, shuffle deck ≡ₚ deck) →
  Game.is_active (get_game w) = false →
  ∃ message g p,
    join_game shuffle {| join_name := name; join_host_url := host_url |} w
    = (Return message, Some g) ∧
    Game.is_active g = true ∧
    Game.players g = [p] ∧
    Game.current_turn_order g = [name] ∧
    Game.pot g = 0%Z ∧
    Player.name p = name ∧
    Player.balance p = 1000%Z ∧
    Player.is_active p = true ∧
    length (Player.cards p) = 2 ∧
    (Player.cards p ++ Game.deck g)%list = shuffle ordered_deck_init ∧
    (Player.cards p ++ Game.deck g)%list ≡ₚ ordered_deck_init.
Proof.
  intros Hshuffle Hinactive. unfold join_game. rewrite Hinactive.
  cbn [negb]. rewrite initialize_game_0.
  pose proof (Permutation_length (Hshuffle ordered_deck_init)) as Hlen.
  pose proof (Hshuffle ordered_deck_init) as Hperm.
  destruct (shuffle ordered_deck_init) as [|c1 [|c2 deck]] eqn:E;
    [done..|].
  cbn. by eexists _, _, _.
Qed.

Lemma join_game_without_game_witness :
  ∃ message g p,
    join_game no_shuffle {| join_name := "Alice"; join_host_url := "" |}
      ended_session
    = (Return message, Some g) ∧
    Game.is_active g = true ∧
    Game.players g = [p] ∧
    Game.current_turn_order g = ["Alice"] ∧
    Game.pot g = 0%Z ∧
    Player.name p = "Alice" ∧
    Player.balance p = 1000%Z ∧
    Player.is_active p = true ∧
    length (Player.cards p) = 2 ∧
    (Player.cards p ++ Game.deck g)%list = no_shuffle ordered_deck_init ∧
    (Player.cards p ++ Game.deck g)%list ≡ₚ ordered_deck_init.
Proof. by apply (join_game_without_game no_shuffle). Defined.
(** ** [show_cards] *)

Lemma find_player_by_name_names (name : string) (g g' : Game.t) :
  Game.is_active g' = Game.is_active g →
  Player.name <$> Game.players g' = Player.name <$> Game.players g →
  find_player_by_name name (Some g') = find_player_by_name name (Some g).
Proof.
  intros Hact Hnames. unfold find_player_by_name, get_game. rewrite Hact.
  destruct (Game.is_active g); [|done].
  pose proof (list_find_fmap Player.name (λ n, n = name) (Game.players g))
    as H1.
  pose proof (list_find_fmap Player.name (λ n, n = name) (Game.players g'))
    as H2.
  rewrite Hnames, H1 in H2.
  destruct (list_find _ (Game.players g)) as [[]|],
           (list_find _ (Game.players g')) as [[]|]; by simplify_eq/=.
Qed.

Lemma show_cards_dealt (shuffle : list Card.t → list Card.t) (g : Game.t)
    (name : string) (i : nat) (p : Player.t) :
  find_player_by_name name (Some g) = Some i →
  Game.players g !! i = Some p →
  Player.cards p ≠ [] →
  show_cards shuffle name (Some g) = (Return (Player.cards p), Some g).
Proof.
  intros Hfind Hp Hcards.
  pose proof (find_player_by_name_known_active _ _ _ Hfind) as Hact.
  unfold show_cards. rewrite get_game_active by done.
  rewrite Hfind, Hact. cbn [negb]. rewrite Hp. cbn.
  destruct (Player.cards p) eqn:E; [done|]. rewrite Hp. cbn. by rewrite E.
Qed.

(** X14: in every session [show_cards] shows a known player a hand of
    exactly two cards, which is the player's hand afterwards.  A hand
    already dealt is shown as it is and nothing changes; an empty hand is
    dealt first.  Asking again shows the same two cards. *)
Theorem session_show_cards_two_cards (shuffle : list Card.t → list Card.t)
    (w : World) (name : string) (i : nat) :
  (∀ deck, shuffle deck ≡ₚ deck) →
  session w →
  find_player_by_name name w = Some i →
  ∃ cards g',
    show_cards shuffle name w = (Return cards, Some g') ∧
    length cards = 2 ∧
    (∃ p, Game.players g' !! i = Some p ∧ Player.cards p = cards) ∧
    (∀ g p, w = Some g → Game.players g !! i = Some p →
            Player.cards p ≠ [] → cards = Player.cards p ∧ g' = g) ∧
    ∀ shuffle',
      show_cards shuffle' name (Some g') = (Return cards, Some g').
Proof.
  intros Hshuffle Hs Hfind.
  pose proof (find_player_by_name_Some_active _ _ _ Hfind) as Hact.
  destruct w as [g|]; [|done].
  assert (Game.is_active g = true) as Hg.
  { unfold get_game in Hact. by destruct (Game.is_active g). }
  clear Hact.
  pose proof (session_game_ok _ Hs g eq_refl) as Hok.
  destruct (find_player_by_name_Some _ _ _ Hg Hfind) as (p & Hp & Hname).
  pose proof (Forall_lookup_1 _ _ _ _ (ok_players g Hok) Hp) as Hpok.
  destruct (ok_hand p Hpok) as [Hempty|Htwo].
  - destruct (Player.cards p) eqn:Hcards; [clear Hempty|done].
    set (G := if decide (length (Game.deck g) < 2)
              then Game.set_deck (shuffle ordered_deck) g else g).
    assert (2 ≤ length (Game.deck G)) as Hdeck.
    { unfold G. case_decide; [|lia]. cbn [Game.deck Game.set_deck].
      rewrite (Permutation_length (Hshuffle ordered_deck)).
      vm_compute. lia. }
    set (g' := Game.set_deck (drop 2 (Game.deck G))
                 (update_player i
                    (Player.set_cards (take 2 (Game.deck G))) G)).
    assert (show_cards shuffle name (Some g)
            = (Return (take 2 (Game.deck G)), Some g')) as Hrun.
    { unfold show_cards. rewrite get_game_active by done.
      rewrite Hfind, Hg. cbn [negb]. rewrite Hp. cbn [fmap option_fmap option_map].
      rewrite Hcards. fold G. fold g'.
      unfold g', update_player. cbn [Game.players Game.set_players Game.set_deck].
      rewrite list_lookup_alter_eq.
      assert (Game.players G = Game.players g) as ->
        by (unfold G; by case_decide).
      by rewrite Hp. }
    assert (Game.players g' !! i
            = Some (Player.set_cards (take 2 (Game.deck G)) p)) as Hp'.
    { unfold g', update_player. cbn [Game.players Game.set_players Game.set_deck].
      rewrite list_lookup_alter_eq.
      assert (Game.players G = Game.players g) as ->
        by (unfold G; by case_decide).
      by rewrite Hp. }
    assert (length (take 2 (Game.deck G)) = 2) as Hlen
      by (rewrite length_take; lia).
    exists (take 2 (Game.deck G)), g'. split; [done|]. split; [done|].
    split; [by eexists|]. split.
    + intros g0 p0 ? Hp0 Hne. by simplify_eq.
    + intros shuffle'.
      assert (find_player_by_name name (Some g') = Some i) as Hfind'.
      { rewrite <- Hfind. apply find_player_by_name_names.
        - unfold g', G. by case_decide.
        - unfold g', update_player.
          cbn [Game.players Game.set_players Game.set_deck].
          rewrite fmap_name_alter by done.
          unfold G. by case_decide. }
      apply (show_cards_dealt shuffle' g' name i _ Hfind' Hp').
      cbn. intros Hnil. by rewrite Hnil in Hlen.
  - assert (Player.cards p ≠ []) as Hne
      by (intros Hnil; by rewrite Hnil in Htwo).
    exists (Player.cards p), g.
    split; [by apply (show_cards_dealt _ g name i)|]. split; [done|].
    split; [by eexists|]. split.
    + intros g0 p0 ? Hp0 _. by simplify_eq.
    + intros shuffle'. by apply (show_cards_dealt _ g name i).
Qed.

Lemma session_show_cards_two_cards_witness :
  ∃ cards g',
    show_cards no_shuffle "Bob" two_player_session
    = (Return cards, Some g') ∧
    length cards = 2 ∧
    (∃ p, Game.players g' !! 1 = Some p ∧ Player.cards p = cards) ∧
    (∀ g p, two_player_session = Some g → Game.players g !! 1 = Some p →
            Player.cards p ≠ [] → cards = Player.cards p ∧ g' = g) ∧
    ∀ shuffle',
      show_cards shuffle' "Bob" (Some g') = (Return cards, Some g').
Proof.
  apply (session_show_cards_two_cards no_shuffle two_player_session "Bob" 1);
    [done | apply two_player_session_is_session | reflexivity].
Defined.
(** ** [compare_cards] *)

Lemma determine_winner_no_empty_split (g : Game.t) :
  determine_winner g ≠ Some (SplitWinners []).
Proof.
  unfold determine_winner.
  destruct (filter _ (Game.players g)) as [|p [|q ps]]; [done..|].
  destruct (omap _ _) as [|s ss]; [done|]. cbv zeta.
  rewrite py_max_max_list.
  assert (max_list (ps_score <$> s :: ss) ∈ ps_score <$> s :: ss)
    as (s' & Hs' & Hin)%list_elem_of_fmap by by apply max_list_elem_of.
  assert (s' ∈ filter (λ p, ps_score p = max_list (ps_score <$> s :: ss))
                      (s :: ss)) as Hwin
    by by apply list_elem_of_filter.
  rewrite fmap_cons in Hwin.
  destruct (filter _ (s :: ss)) as [|? [|? ?]]; [|done..].
  by apply elem_of_nil in Hwin.
Qed.

Lemma determine_winner_None (g : Game.t) :
  (∀ p, p ∈ Game.players g → 2 ≤ length (Player.cards p)) →
  determine_winner g = None
  ↔ ∀ p, p ∈ Game.players g → Player.is_active p = false.
Proof.
  intros Hcards. split.
  - intros Hnone p Hp. destruct (Player.is_active p) eqn:Hact; [|done].
    exfalso.
    assert (p ∈ filter (λ p, Player.is_active p) (Game.players g)) as Hin
      by (apply list_elem_of_filter; split; [by apply Is_true_true|done]).
    pose proof (determine_winner_no_empty_split g) as Hsplit.
    unfold determine_winner in Hnone, Hsplit.
    destruct (filter _ (Game.players g)) as [|p1 [|p2 ps]] eqn:E;
      [by apply elem_of_nil in Hin | done |].
    rewrite omap_score_player in Hnone, Hsplit.
    assert (p1 ∈ filter (λ p, 2 ≤ length (Player.cards p)) (p1 :: p2 :: ps))
      as Hp1.
    { apply list_elem_of_filter. split; [|apply list_elem_of_here].
      apply Hcards.
      assert (p1 ∈ filter (λ p, Player.is_active p) (Game.players g)) as H1
        by (rewrite E; apply list_elem_of_here).
      by apply list_elem_of_filter in H1 as [_ ?]. }
    destruct (filter _ (p1 :: p2 :: ps)) as [|q qs];
      [by apply elem_of_nil in Hp1|].
    rewrite fmap_cons in Hnone, Hsplit. cbv zeta in Hnone, Hsplit.
    by destruct (filter _ (score_entry q :: _)) as [|? [|? ?]].
  - intros Hall. unfold determine_winner.
    destruct (filter _ (Game.players g)) as [|q qs] eqn:E; [done|].
    assert (q ∈ filter (λ p, Player.is_active p) (Game.players g)) as Hq
      by (rewrite E; apply list_elem_of_here).
    apply list_elem_of_filter in Hq as [Hq Hin]. apply Hall in Hin.
    by rewrite Hin in Hq.
Qed.

Lemma deal_missing_cards_hands (players : list Player.t)
    (deck : list Card.t) :
  Forall (λ p, length (Player.cards p) = 0 ∨ length (Player.cards p) = 2)
         players →
  Forall2 (λ p q, Player.is_active q = Player.is_active p ∧
                  length (Player.cards q) = 2)
          players (deal_missing_cards players deck).1.
Proof.
  revert deck. induction players as [|p ps IH]; intros deck Hps;
    [by constructor|].
  apply Forall_cons in Hps as [Hp Hps]. simpl.
  destruct (Player.cards p) eqn:Ec.
  - case_decide as Hlen.
    + specialize (IH (drop 2 deck) Hps).
      destruct (deal_missing_cards ps (drop 2 deck)). simpl in *.
      constructor; [|done]. split; [done|]. cbn. rewrite length_take. lia.
    + specialize (IH deck Hps).
      destruct (deal_missing_cards ps deck). simpl in *.
      by constructor.
  - specialize (IH deck Hps).
    destruct (deal_missing_cards ps deck). simpl in *.
    constructor; [|done]. split; [done|]. rewrite Ec.
    by destruct Hp.
Qed.

(** X15: [compare_cards] on the active game of a session leaves every
    player with two cards and never indexes an empty list of winners.  It
    fails, with the [TypeError] of subscripting [None], exactly when no
    player of the game is active, as right after [start_game]. *)
Theorem session_compare_cards_outcome (w : World) (g : Game.t) :
  session w → w = Some g → Game.is_active g = true →
  ∃ r g',
    compare_cards w = (r, Some g') ∧
    r ≠ inl IndexError ∧
    (r = inl TypeError
     ↔ ∀ p, p ∈ Game.players g → Player.is_active p = false) ∧
    ∀ p, p ∈ Game.players g' → length (Player.cards p) = 2.
Proof.
  intros Hs -> Hact. pose proof (session_game_ok _ Hs g eq_refl) as Hok.
  assert (Forall (λ p, length (Player.cards p) = 0
                       ∨ length (Player.cards p) = 2) (Game.players g))
    as Hhands.
  { eapply Forall_impl; [apply (ok_players g Hok)|].
    intros p Hp. apply (ok_hand p Hp). }
  pose proof (deal_missing_cards_hands _ (Game.deck g) Hhands) as Hdealt.
  unfold compare_cards. rewrite get_game_active by done. rewrite Hact.
  cbn [negb].
  destruct (deal_missing_cards _ _) as [players deck]. cbn [fst] in Hdealt.
  set (G := Game.set_deck deck (Game.set_players players g)).
  assert (∀ p, p ∈ Game.players G → length (Player.cards p) = 2) as Htwo.
  { intros q (j & Hq)%list_elem_of_lookup_1.
    destruct (Forall2_lookup_r _ _ _ _ _ Hdealt Hq) as (p & _ & _ & ?).
    done. }
  assert ((∀ q, q ∈ Game.players G → Player.is_active q = false)
          ↔ ∀ p, p ∈ Game.players g → Player.is_active p = false) as Hsame.
  { split.
    - intros Hall p (j & Hp)%list_elem_of_lookup_1.
      destruct (Forall2_lookup_l _ _ _ _ _ Hdealt Hp) as (q & Hq & <- & _).
      apply Hall. by eapply list_elem_of_lookup_2.
    - intros Hall q (j & Hq)%list_elem_of_lookup_1.
      destruct (Forall2_lookup_r _ _ _ _ _ Hdealt Hq) as (p & Hp & -> & _).
      apply Hall. by eapply list_elem_of_lookup_2. }
  pose proof (determine_winner_no_empty_split G) as Hsplit.
  assert (determine_winner G = None
          ↔ ∀ q, q ∈ Game.players G → Player.is_active q = false) as Hnone.
  { apply determine_winner_None. intros q Hq. rewrite (Htwo q Hq). lia. }
  destruct (determine_winner G) as [[?|?|[|? ?]]|] eqn:Edw;
    try done;
    eexists _, G; (split; [reflexivity|]); (split; [done|]);
    (split; [|done]); (split; [intros Hr|intros Hall]); try done.
  - by pose proof (proj2 Hnone (proj2 Hsame Hall)).
  - by pose proof (proj2 Hnone (proj2 Hsame Hall)).
  - by pose proof (proj2 Hnone (proj2 Hsame Hall)).
  - exact (proj1 Hsame (proj1 Hnone eq_refl)).
Qed.

Lemma session_compare_cards_outcome_witness :
  let g := default new_game two_player_session in
  ∃ r g',
    compare_cards two_player_session = (r, Some g') ∧
    r ≠ inl IndexError ∧
    (r = inl TypeError
     ↔ ∀ p, p ∈ Game.players g → Player.is_active p = false) ∧
    ∀ p, p ∈ Game.players g' → length (Player.cards p) = 2.
Proof.
  apply (session_compare_cards_outcome two_player_session);
    [apply two_player_session_is_session | reflexivity | reflexivity].
Defined.

(** ** [community_cards] *)


(** ** [deal_cards] of [init.py] *)


(** ** The endpoints and the methods of [Player] *)



Lemma fold_known (g : Game.t) (name : string) (i : nat) (p : Player.t) :
  find_player_by_name name (Some g) = Some i →
  Game.players g !! i = Some p →
  ∃ r g',
    fold {| fold_name := name |} (Some g) = (Return r, Some g') ∧
    Game.players g' !! i
    = Some (player_fold (Player.set_has_acted true p)) ∧
    Player.name <$> Game.players g' = Player.name <$> Game.players g ∧
    Game.is_active g' = true.
Proof.
  intros Hfind Hp.
  pose proof (find_player_by_name_known_active _ _ _ Hfind) as Hact.
  unfold fold. fold (activated (Some g)). rewrite activated_active by done.
  cbn [fold_name]. rewrite Hfind, !update_player_compose.
  match goal with |- context [fold_update_turn_order _ ?G0] =>
    set (G := G0)
  end.
  assert (Game.players G !! i
          = Some (player_fold (Player.set_has_acted true p))) as Hi.
  { unfold G, update_player. cbn. by rewrite list_lookup_alter_eq, Hp. }
  assert (Player.name <$> Game.players G = Player.name <$> Game.players g)
    as Hnames
    by (unfold G, update_player; cbn; by rewrite fmap_name_alter).
  assert (Game.is_active G = true) as HG by done.
  destruct (fold_update_turn_order_frame name G) as (o & ix & ->).
  clearbody G.
  destruct (active_players_of _) as [|[j q] [|]] eqn:E.
  - by eexists _, _.
  - assert ((j, q) ∈ active_players_of
              (Game.set_current_turn_index ix
                 (Game.set_current_turn_order o G))) as Hin
      by (rewrite E; apply list_elem_of_here).
    pose proof (active_players_of_elem_of _ _ _ Hin) as Hq.
    apply list_elem_of_filter in Hin as [Hqact _]. cbn in Hqact, Hq.
    assert (j ≠ i) as Hne.
    { intros ->. rewrite Hi in Hq. by simplify_eq/=. }
    eexists _, _. split; [done|]. cbn.
    rewrite list_lookup_alter_ne by done.
    by rewrite fmap_name_alter.
  - destruct (advance_turn_frame
                (Game.set_current_turn_index ix
                   (Game.set_current_turn_order o G))) as (o' & ix' & ->).
    by eexists _, _.
Qed.

(** X19: what [fold] does to the record of a known player who folds is
    [Player.fold] and the mark [has_acted]: balance, cards and
    [current_bet] are as before (the bet is not returned), whether the
    hand goes on or the last survivor is paid; no player joins or leaves
    the game. *)
Theorem fold_folder_record (g : Game.t) (name : string) (i : nat)
    (p : Player.t) :
  find_player_by_name name (Some g) = Some i →
  Game.players g !! i = Some p →
  ∃ r g',
    fold {| fold_name := name |} (Some g) = (Return r, Some g') ∧
    Game.players g' !! i
    = Some (player_fold (Player.set_has_acted true p)) ∧
    Player.name <$> Game.players g' = Player.name <$> Game.players g.
Proof.
  intros Hfind Hp.
  destruct (fold_known g name i p Hfind Hp) as (r & g' & ? & ? & ? & _).
  by exists r, g'.
Qed.

Lemma fold_folder_record_witness :
  ∃ r g',
    fold {| fold_name := "Alice" |} (Some heads_up_table)
    = (Return r, Some g') ∧
    Game.players g' !! 0
    = Some (player_fold (Player.set_has_acted true
                           (seat "Alice" 950 true true))) ∧
    Player.name <$> Game.players g'
    = Player.name <$> Game.players heads_up_table.
Proof.
  apply (fold_folder_record heads_up_table "Alice" 0); reflexivity.
Defined.

(** X20: a fold is undone by asking: when the player who has folded calls
    [is_your_turn], the answer is that it is not the player's turn, and
    the player is active again, with the turn order [fold] left. *)
Theorem fold_then_is_your_turn_reactivates (g : Game.t) (name : string)
    (i : nat) :
  find_player_by_name name (Some g) = Some i →
  ∃ r g' g'' q,
    fold {| fold_name := name |} (Some g) = (Return r, Some g') ∧
    is_your_turn name (Some g')
    = (Return (TurnNotice false "Player was not active, now activated"),
       Some g'') ∧
    Game.players g'' !! i = Some q ∧
    Player.is_active q = true ∧
    Game.current_turn_order g'' = Game.current_turn_order g' ∧
    Game.current_turn_index g'' = Game.current_turn_index g'.
Proof.
  intros Hfind.
  pose proof (find_player_by_name_known_active _ _ _ Hfind) as Hact.
  destruct (find_player_by_name_Some _ _ _ Hact Hfind) as (p & Hp & _).
  destruct (fold_known g name i p Hfind Hp)
    as (r & g' & Hfold & Hi & Hnames & Hact').
  assert (find_player_by_name name (Some g') = Some i) as Hfind'.
  { rewrite <- Hfind. apply find_player_by_name_names; [|done].
    by rewrite Hact, Hact'. }
  exists r, g'. eexists _, _. split; [done|].
  unfold is_your_turn. rewrite get_game_active by done.
  rewrite Hact', Hfind', Hi. cbn. split; [reflexivity|]. cbn.
  rewrite list_lookup_alter_eq, Hi. by cbn.
Qed.

Lemma fold_then_is_your_turn_reactivates_witness :
  ∃ r g' g'' q,
    fold {| fold_name := "Alice" |} (Some sample_table)
    = (Return r, Some g') ∧
    is_your_turn "Alice" (Some g')
    = (Return (TurnNotice false "Player was not active, now activated"),
       Some g'') ∧
    Game.players g'' !! 0 = Some q ∧
    Player.is_active q = true ∧
    Game.current_turn_order g'' = Game.current_turn_order g' ∧
    Game.current_turn_index g'' = Game.current_turn_index g'.
Proof.
  apply (fold_then_is_your_turn_reactivates sample_table "Alice" 0).
  reflexivity.
Defined.
(** ** [initialize_game] *)

Lemma initialize_game_loop (game : Game.t) (mk : nat → Player.t) (n : nat) :
  foldl (λ game i,
           Game.set_current_turn_order
             (Game.current_turn_order game ++ [Player.name (mk i)])
             (Game.set_players (Game.players game ++ [mk i]) game))
        game (seq 0 n)
  = Game.set_current_turn_order
      (Game.current_turn_order game ++ (Player.name ∘ mk <$> seq 0 n))
      (Game.set_players (Game.players game ++ (mk <$> seq 0 n)) game).
Proof.
  induction n as [|n IH].
  - destruct game. cbn. by rewrite !app_nil_r.
  - rewrite seq_S, foldl_app, IH, !fmap_app. cbn.
    unfold Game.set_current_turn_order, Game.set_players. cbn.
    by rewrite <- !(assoc_L (++)).
Qed.

(** X21: [initialize_game n] builds, whatever the game before, an active
    game of [n] players named Player 1 to Player n, pairwise distinct,
    each with 1000 chips, active and without cards: the deck is shuffled
    but no card is dealt.  The turn order is the players' names in
    order. *)
Theorem initialize_game_players (shuffle : list Card.t → list Card.t)
    (n : nat) (w : World) :
  ∃ g,
    initialize_game shuffle n w = Some g ∧
    Game.is_active g = true ∧
    length (Game.players g) = n ∧
    (∀ i p, Game.players g !! i = Some p →
            Player.name p = "Player " +:+ pretty (i + 1) ∧
            Player.balance p = 1000%Z ∧ Player.cards p = [] ∧
            Player.current_bet p = 0%Z ∧ Player.is_active p = true) ∧
    Game.current_turn_order g = Player.name <$> Game.players g ∧
    NoDup (Game.current_turn_order g) ∧
    Game.current_turn_index g = 0 ∧
    Game.pot g = 0%Z ∧
    Game.deck g = shuffle ordered_deck_init.
Proof.
  unfold initialize_game.
  rewrite (initialize_game_loop _
             (λ i, Player.mk ("Player " +:+ pretty (i + 1)) 1000 [] 0 true
                     None false false)).
  unfold initialize_deck. rewrite get_game_active by done.
  eexists. split; [reflexivity|].
  cbn [Game.is_active Game.players Game.current_turn_order
       Game.current_turn_index Game.pot Game.deck Game.set_deck
       Game.set_players Game.set_current_turn_order app].
  split; [done|]. split; [by rewrite length_fmap, length_seq|]. split.
  { intros i p Hp. apply list_lookup_fmap_Some in Hp as (j & -> & Hj).
    apply lookup_seq in Hj as [-> _]. done. }
  split; [by rewrite <- list_fmap_compose|]. split; [|done].
  apply NoDup_fmap_2; [|apply NoDup_seq].
  intros i j Hij. cbn in Hij.
  apply (inj (String.app "Player ")), (inj pretty) in Hij. lia.
Qed.

(** ** The history of the client *)

Lemma record_action_drop (timestamp action details : string)
    (game_history : list HistoryEntry) :
  length game_history ≤ 20 →
  let entry := {| entry_time := timestamp; entry_action := action;
                  entry_details := details |} in
  record_action timestamp action details game_history
  = drop (length (game_history ++ [entry]) - 20) (game_history ++ [entry]).
Proof.
  intros Hlen entry. unfold record_action. fold entry.
  rewrite length_app in *. cbn [length] in *. case_decide.
  - by replace (length game_history + 1 - 20) with 1 by lia.
  - by replace (length game_history + 1 - 20) with 0 by lia.
Qed.

Lemma record_action_all (entries game_history : list HistoryEntry) :
  length game_history ≤ 20 →
  foldl (λ game_history entry,
           record_action (entry_time entry) (entry_action entry)
             (entry_details entry) game_history)
        game_history entries
  = drop (length (game_history ++ entries) - 20) (game_history ++ entries).
Proof.
  revert game_history.
  induction entries as [|[t a d] entries IH]; intros h Hlen.
  - rewrite app_nil_r. cbn [foldl].
    by replace (length h - 20) with 0 by lia.
  - cbn [foldl entry_time entry_action entry_details].
    rewrite record_action_drop by done. cbv zeta.
    set (entry := {| entry_time := t; entry_action := a;
                     entry_details := d |}).
    rewrite IH by (rewrite length_drop, length_app; cbn; lia).
    rewrite <- drop_app_le by (rewrite length_app; cbn; lia).
    rewrite drop_drop, <- (assoc_L (++)). cbn [app].
    f_equal. rewrite length_drop, !length_app. cbn [length]. lia.
Qed.

(** X22: the client's history keeps the last 20 actions: after any
    number of [record_action] calls on the empty history of a new
    browser session it holds the last 20 entries recorded, in order, or
    all of them when there are fewer. *)
Theorem record_action_keeps_last_20 (entries : list HistoryEntry) :
  foldl (λ game_history entry,
           record_action (entry_time entry) (entry_action entry)
             (entry_details entry) game_history)
        [] entries
  = drop (length entries - 20) entries
  ∧ length (drop (length entries - 20) entries) ≤ 20.
Proof.
  split.
  - by rewrite record_action_all by (cbn; lia).
  - rewrite length_drop. lia.
Qed.
